(** * ColorWerkz metadata cache: a shallow embedding of
      [server/metadata_cache_manager.py] and [server/metadata_lazy_evaluator.py]

    Conventions of the embedding.
    - A Python [str] and the [bytes] of its UTF-8 encoding are both a
      [string] (a sequence of bytes), so [str.encode()] is the identity.
    - A Python [int] is a [Z].  A [float] is an IEEE 754 binary64 number
      of the specification [SpecFloat], with its rounding.
    - A Python exception is a constructor of [exn]; a call that may raise
      returns a [result].  [except Exception] catches every [exn].
    - The Redis client and the PostgreSQL connection are objects the
      manager is handed.  Each is modelled by its visible store, the list
      of commands it was sent and a fault schedule saying which of its next
      calls raise.  Redis is a plain map: its own eviction and the expiry
      of a TTL, which happen in real time, are not modelled; [SETEX] is
      recorded as such in the list of commands.  PostgreSQL is the table
      [metadata_cache] keyed by [cache_key], with the view of the open
      transaction and the committed state; a call that raises has no
      effect; the column types of [SQL_SCHEMA], a string that the module
      never executes, are not enforced, and a fetched [value] is the text
      that was stored.
    - [json.dumps] and [json.loads] are the two operations of the class
      [Json]; the theorems hold for every instance, and the examples run
      on the instance of JSON integers.
    - [hashlib.sha256] is SHA-256 itself. *)

From Stdlib Require Import ZArith QArith Lia List Ascii String.
From Stdlib Require Import DecimalString DecimalPos DecimalZ SpecFloat.
From stdpp Require Import base gmap strings list fin_maps.

Local Open Scope Z_scope.

(** ** SHA-256 ([hashlib.sha256]) over byte strings *)

Module Sha256.

Definition word := Z.

Definition wmask : Z := 4294967295.

Definition wadd (a b : word) : word := Z.land (a + b) wmask.

Definition rotr (n : Z) (x : word) : word :=
  Z.lor (Z.shiftr x n) (Z.land (Z.shiftl x (32 - n)) wmask).

Definition wnot (x : word) : word := Z.lxor x wmask.

Definition Ch (x y z : word) : word :=
  Z.lxor (Z.land x y) (Z.land (wnot x) z).

Definition Maj (x y z : word) : word :=
  Z.lxor (Z.lxor (Z.land x y) (Z.land x z)) (Z.land y z).

Definition Sigma0 (x : word) : word :=
  Z.lxor (Z.lxor (rotr 2 x) (rotr 13 x)) (rotr 22 x).

Definition Sigma1 (x : word) : word :=
  Z.lxor (Z.lxor (rotr 6 x) (rotr 11 x)) (rotr 25 x).

Definition sigma0 (x : word) : word :=
  Z.lxor (Z.lxor (rotr 7 x) (rotr 18 x)) (Z.shiftr x 3).

Definition sigma1 (x : word) : word :=
  Z.lxor (Z.lxor (rotr 17 x) (rotr 19 x)) (Z.shiftr x 10).

(** The constants are not tabulated: as the standard defines them, they
    are the first 32 bits of the fractional parts of the cube roots (for
    [K]) and square roots (for [H0]) of the first primes. *)
Definition is_prime (n : Z) : bool :=
  (1 <? n) && List.forallb (fun d => negb (n mod d =? 0))
                           (List.filter (fun d => d * d <=? n) (List.map Z.of_nat (List.seq 2 20))).

Definition primes : list Z :=
  List.filter is_prime (List.map Z.of_nat (List.seq 2 310)).

(** Integer cube root, one bit at a time from bit [bits - 1] down. *)
Fixpoint cbrt_bits (bits : nat) (n r : Z) : Z :=
  match bits with
  | O => r
  | S b =>
      let r' := r + Z.shiftl 1 (Z.of_nat b) in
      cbrt_bits b n (if r' * r' * r' <=? n then r' else r)
  end.

Definition cbrt_frac (p : Z) : word := Z.land (cbrt_bits 36 (Z.shiftl p 96) 0) wmask.
Definition sqrt_frac (p : Z) : word := Z.land (Z.sqrt (Z.shiftl p 64)) wmask.

Definition K : list word := Eval vm_compute in List.map cbrt_frac primes.

(** The eight working variables [a..h], also the chaining value. *)
Record regs := Regs {
  ra : word; rb : word; rc : word; rd : word;
  re : word; rf : word; rg : word; rh : word }.

Definition regs_of_list (l : list word) : regs :=
  Regs (List.nth 0 l 0) (List.nth 1 l 0) (List.nth 2 l 0) (List.nth 3 l 0)
       (List.nth 4 l 0) (List.nth 5 l 0) (List.nth 6 l 0) (List.nth 7 l 0).

Definition H0 : regs :=
  Eval vm_compute in regs_of_list (List.map sqrt_frac (List.firstn 8 primes)).

Definition bytes_of_string (s : string) : list Z :=
  List.map (fun c => Z.of_nat (nat_of_ascii c)) (list_ascii_of_string s).

(** Big-endian encoding of [x] on [n] bytes. *)
Fixpoint be_bytes (n : nat) (x : Z) : list Z :=
  match n with
  | O => []
  | S n' => Z.land (Z.shiftr x (8 * Z.of_nat n')) 255 :: be_bytes n' x
  end.

(** Message padding: a one bit, zeros up to 56 mod 64, the bit length. *)
Definition pad (msg : list Z) : list Z :=
  let len := Z.of_nat (List.length msg) in
  let zeros := Z.to_nat ((55 - len) mod 64) in
  msg ++ 128 :: List.repeat 0 zeros ++ be_bytes 8 (8 * len).

Fixpoint words_of_bytes (fuel : nat) (bs : list Z) : list word :=
  match fuel, bs with
  | S fuel', b0 :: b1 :: b2 :: b3 :: rest =>
      (Z.shiftl b0 24 + Z.shiftl b1 16 + Z.shiftl b2 8 + b3)
        :: words_of_bytes fuel' rest
  | _, _ => []
  end.

(** Message schedule: [sched] holds [W_(t-1), W_(t-2), ...], newest first. *)
Fixpoint extend (n : nat) (sched : list word) : list word :=
  match n with
  | O => sched
  | S n' =>
      let w2 := List.nth 1 sched 0 in
      let w7 := List.nth 6 sched 0 in
      let w15 := List.nth 14 sched 0 in
      let w16 := List.nth 15 sched 0 in
      extend n' (wadd (wadd (sigma1 w2) w7) (wadd (sigma0 w15) w16) :: sched)
  end.

Definition schedule (block : list word) : list word :=
  List.rev (extend 48 (List.rev block)).

Definition round (s : regs) (kw : word * word) : regs :=
  let '(k, w) := kw in
  let t1 := wadd (wadd (wadd (rh s) (Sigma1 (re s)))
                       (wadd (Ch (re s) (rf s) (rg s)) k)) w in
  let t2 := wadd (Sigma0 (ra s)) (Maj (ra s) (rb s) (rc s)) in
  Regs (wadd t1 t2) (ra s) (rb s) (rc s) (wadd (rd s) t1) (re s) (rf s) (rg s).

Definition compress (h : regs) (block : list word) : regs :=
  let s := List.fold_left round (List.combine K (schedule block)) h in
  Regs (wadd (ra h) (ra s)) (wadd (rb h) (rb s))
       (wadd (rc h) (rc s)) (wadd (rd h) (rd s))
       (wadd (re h) (re s)) (wadd (rf h) (rf s))
       (wadd (rg h) (rg s)) (wadd (rh h) (rh s)).

Fixpoint blocks (fuel : nat) (ws : list word) (h : regs) : regs :=
  match fuel, ws with
  | S fuel', _ :: _ => blocks fuel' (List.skipn 16 ws) (compress h (List.firstn 16 ws))
  | _, _ => h
  end.

Definition digest (msg : list Z) : regs :=
  let bs := pad msg in
  let ws := words_of_bytes (List.length bs) bs in
  blocks (List.length ws) ws H0.

Definition hex_digit (n : Z) : ascii :=
  if n <? 10 then ascii_of_nat (Z.to_nat (48 + n))
  else ascii_of_nat (Z.to_nat (87 + n)).

(** The eight lowercase hexadecimal digits of a 32-bit word. *)
Definition hex_word (w : word) : list ascii :=
  List.map (fun i => hex_digit (Z.land (Z.shiftr w (4 * i)) 15))
           [7; 6; 5; 4; 3; 2; 1; 0].

Definition hex_regs (h : regs) : list ascii :=
  hex_word (ra h) ++ hex_word (rb h) ++ hex_word (rc h) ++ hex_word (rd h) ++
  hex_word (re h) ++ hex_word (rf h) ++ hex_word (rg h) ++ hex_word (rh h).

(** [hashlib.sha256(b).hexdigest()] as a list of 64 characters. *)
Definition hexdigest (b : string) : list ascii :=
  hex_regs (digest (bytes_of_string b)).

End Sha256.

(** ** Python results, exceptions and a state-and-exception monad *)

Inductive exn : Type :=
| ConnectionError (who : string)   (* raised by a Redis or PostgreSQL call *)
| JSONDecodeError                  (* json.loads / bytes.decode on bad input *)
| TypeError                        (* json.dumps on a non-serializable value *)
| ZeroDivisionError
| AttributeError (msg : string)
| ComputeError (msg : string).     (* anything a compute function raises *)

Inductive result (A : Type) : Type :=
| Ok (a : A)
| Raise (e : exn).
Arguments Ok {A} a.
Arguments Raise {A} e.

(** A computation over a mutable state [S].  The state reached when an
    exception is raised is kept: Python does not undo assignments. *)
Definition M (S A : Type) : Type := S -> result A * S.

#[global] Instance M_ret (S : Type) : MRet (M S) :=
  fun A (a : A) (s : S) => (Ok a, s).

#[global] Instance M_bind (S : Type) : MBind (M S) :=
  fun A B (k : A -> M S B) (c : M S A) (s : S) =>
    match c s with
    | (Ok a, s') => k a s'
    | (Raise e, s') => (Raise e, s')
    end.

Definition raise {S A : Type} (e : exn) : M S A := fun s => (Raise e, s).

(** [try: body except Exception as e: handler e] *)
Definition try_except {S A : Type} (body : M S A) (handler : exn -> M S A) : M S A :=
  fun s =>
    match body s with
    | (Ok a, s') => (Ok a, s')
    | (Raise e, s') => handler e s'
    end.

Definition gets {S A : Type} (f : S -> A) : M S A := fun s => (Ok (f s), s).
Definition modify {S : Type} (f : S -> S) : M S unit := fun s => (Ok tt, f s).

(** Run a computation on a component, given how to read and write it. *)
Definition zoom {S T A : Type} (rd : S -> T) (wr : T -> S -> S) (c : M T A) : M S A :=
  fun s => let '(x, t) := c (rd s) in (x, wr t s).

Definition of_option {S A : Type} (e : exn) (o : option A) : M S A :=
  match o with
  | Some a => mret a
  | None => raise e
  end.

(** ** Fault schedules of the backends *)

Record faults : Type := Faults {
  upcoming : list bool;   (* whether each of the next calls raises *)
  thereafter : bool }.    (* and every call after those *)

Definition healthy : faults := Faults [] false.
Definition broken : faults := Faults [] true.

Definition next_fault (f : faults) : bool * faults :=
  match upcoming f with
  | b :: bs => (b, Faults bs (thereafter f))
  | [] => (thereafter f, f)
  end.

(** ** The L1 backend: a Redis client *)

Inductive redis_cmd : Type :=
| GET (key : string)
| SET (key value : string)
| SETEX (key : string) (ttl : Z) (value : string)
| DEL (key : string)
| DBSIZE.

Record Redis : Type := MkRedis {
  r_data : gmap string string;
  r_faults : faults;
  r_sent : list redis_cmd }.

(** Every client call is recorded, then raises or runs, as scheduled. *)
Definition redis_call {A : Type} (cmd : redis_cmd)
    (run : gmap string string -> A * gmap string string) : M Redis A :=
  fun r =>
    let '(bad, fs) := next_fault (r_faults r) in
    let sent := r_sent r ++ [cmd] in
    if bad then (Raise (ConnectionError "redis"), MkRedis (r_data r) fs sent)
    else let '(a, d) := run (r_data r) in (Ok a, MkRedis d fs sent).

Definition redis_get (key : string) : M Redis (option string) :=
  redis_call (GET key) (fun d => (d !! key, d)).

Definition redis_set (key value : string) : M Redis unit :=
  redis_call (SET key value) (fun d => (tt, <[key := value]> d)).

Definition redis_setex (key : string) (ttl : Z) (value : string) : M Redis unit :=
  redis_call (SETEX key ttl value) (fun d => (tt, <[key := value]> d)).

Definition redis_delete (key : string) : M Redis unit :=
  redis_call (DEL key) (fun d => (tt, delete key d)).

Definition redis_dbsize : M Redis Z :=
  redis_call DBSIZE (fun d => (Z.of_nat (size d), d)).

(** ** The L2 backend: a PostgreSQL connection on table [metadata_cache] *)

(** A row of [metadata_cache], without its primary key [cache_key] and
    without the two timestamps, which the manager never reads. *)
Record row : Type := Row {
  row_metadata_id : string;
  row_property_name : string;
  row_value : string }.

(** The four statements the manager issues. *)
Inductive sql : Type :=
| SelectValue (cache_key : string)
| Upsert (cache_key metadata_id property_name value : string)
| SelectKeys (metadata_id : string)
| Delete (cache_key : string).

Inductive pg_cmd : Type :=
| Cursor
| Execute (q : sql)
| Fetchone
| Fetchall
| Commit
| Rollback.

Record Postgres : Type := MkPostgres {
  pg_table : gmap string row;       (* the table as this transaction sees it *)
  pg_committed : gmap string row;   (* the table as last committed *)
  pg_rows : list string;            (* result set of the last SELECT, one column *)
  pg_faults : faults;
  pg_sent : list pg_cmd }.

Definition pg_call {A : Type} (cmd : pg_cmd) (run : Postgres -> A * Postgres) : M Postgres A :=
  fun p =>
    let '(bad, fs) := next_fault (pg_faults p) in
    let p' := MkPostgres (pg_table p) (pg_committed p) (pg_rows p) fs (pg_sent p ++ [cmd]) in
    if bad then (Raise (ConnectionError "postgres"), p') else
    let '(a, p'') := run p' in (Ok a, p'').

Definition with_table (t : gmap string row) (p : Postgres) : Postgres :=
  MkPostgres t (pg_committed p) (pg_rows p) (pg_faults p) (pg_sent p).

Definition with_rows (rs : list string) (p : Postgres) : Postgres :=
  MkPostgres (pg_table p) (pg_committed p) rs (pg_faults p) (pg_sent p).

(** [INSERT ... ON CONFLICT (cache_key) DO UPDATE SET value = EXCLUDED.value]:
    a row that exists keeps its [metadata_id] and [property_name]. *)
Definition upsert (key mid prop value : string) (t : gmap string row) : gmap string row :=
  match t !! key with
  | Some r => <[key := Row (row_metadata_id r) (row_property_name r) value]> t
  | None => <[key := Row mid prop value]> t
  end.

Definition keys_of (mid : string) (t : gmap string row) : list string :=
  (map_to_list t) ≫= (fun kr => if String.eqb (row_metadata_id (snd kr)) mid then [fst kr] else []).

Definition run_sql (q : sql) (p : Postgres) : Postgres :=
  match q with
  | SelectValue key =>
      with_rows (match pg_table p !! key with Some r => [row_value r] | None => [] end) p
  | Upsert key mid prop value => with_table (upsert key mid prop value (pg_table p)) p
  | SelectKeys mid => with_rows (keys_of mid (pg_table p)) p
  | Delete key => with_table (delete key (pg_table p)) p
  end.

Definition pg_cursor : M Postgres unit := pg_call Cursor (fun p => (tt, p)).

Definition pg_execute (q : sql) : M Postgres unit :=
  pg_call (Execute q) (fun p => (tt, run_sql q p)).

Definition pg_fetchone : M Postgres (option string) :=
  pg_call Fetchone (fun p =>
    match pg_rows p with
    | r :: rs => (Some r, with_rows rs p)
    | [] => (None, p)
    end).

Definition pg_fetchall : M Postgres (list string) :=
  pg_call Fetchall (fun p => (pg_rows p, with_rows [] p)).

Definition pg_commit : M Postgres unit :=
  pg_call Commit (fun p =>
    (tt, MkPostgres (pg_table p) (pg_table p) (pg_rows p) (pg_faults p) (pg_sent p))).

Definition pg_rollback : M Postgres unit :=
  pg_call Rollback (fun p =>
    (tt, MkPostgres (pg_committed p) (pg_committed p) (pg_rows p) (pg_faults p) (pg_sent p))).

(** ** The serialization format ([json.dumps], [json.loads]) *)

(** [json_dumps v = None] when [json.dumps] raises, [json_loads b = None]
    when decoding or parsing raises. *)
Class Json (Value : Type) : Type := {
  json_dumps : Value -> option string;
  json_loads : string -> option Value }.

(** ** [MetadataCacheManager] *)

Record Stats : Type := MkStats {
  l1_hits : Z;
  l2_hits : Z;
  misses : Z;
  evictions : Z;
  total_accesses : Z }.

Inductive counter : Type := L1_hits | L2_hits | Misses | Evictions | Total_accesses.

(** [self.stats[c] += 1] *)
Definition bump (c : counter) (s : Stats) : Stats :=
  match c with
  | L1_hits => MkStats (l1_hits s + 1) (l2_hits s) (misses s) (evictions s) (total_accesses s)
  | L2_hits => MkStats (l1_hits s) (l2_hits s + 1) (misses s) (evictions s) (total_accesses s)
  | Misses => MkStats (l1_hits s) (l2_hits s) (misses s + 1) (evictions s) (total_accesses s)
  | Evictions => MkStats (l1_hits s) (l2_hits s) (misses s) (evictions s + 1) (total_accesses s)
  | Total_accesses => MkStats (l1_hits s) (l2_hits s) (misses s) (evictions s) (total_accesses s + 1)
  end.

(** The lines the manager prints, one constructor per [print] call. *)
Inductive line : Type :=
| L1_cache_error (e : exn)
| L2_cache_error (e : exn)
| L1_set_error (e : exn)
| L2_set_error (e : exn)
| Invalidation_error (e : exn)
| L1_delete_error (e : exn)
| L2_delete_error (e : exn).

Record Manager : Type := MkManager {
  redis : option Redis;
  postgres : option Postgres;
  l1_capacity : Z;
  l1_ttl : option Z;
  stats : Stats;
  printed : list line }.

(** [MetadataCacheManager.__init__] *)
Definition __init__ (redis_client : option Redis) (postgres_connection : option Postgres)
    (l1_capacity : Z) (l1_ttl : option Z) : Manager :=
  MkManager redis_client postgres_connection l1_capacity l1_ttl (MkStats 0 0 0 0 0) [].

Definition set_redis (r : Redis) (m : Manager) : Manager :=
  MkManager (Some r) (postgres m) (l1_capacity m) (l1_ttl m) (stats m) (printed m).

Definition set_postgres (p : Postgres) (m : Manager) : Manager :=
  MkManager (redis m) (Some p) (l1_capacity m) (l1_ttl m) (stats m) (printed m).

Definition set_stats (s : Stats) (m : Manager) : Manager :=
  MkManager (redis m) (postgres m) (l1_capacity m) (l1_ttl m) s (printed m).

Definition set_printed (l : list line) (m : Manager) : Manager :=
  MkManager (redis m) (postgres m) (l1_capacity m) (l1_ttl m) (stats m) l.

(** [_generate_cache_key]: the first 16 hexadecimal digits of the SHA-256
    of ["metadata:<metadata_id>:<property_name>"]. *)
Definition key_string (metadata_id property_name : string) : string :=
  ("metadata:" ++ metadata_id ++ ":" ++ property_name)%string.

Definition _generate_cache_key (metadata_id property_name : string) : string :=
  string_of_list_ascii (List.firstn 16 (Sha256.hexdigest (key_string metadata_id property_name))).

(** Truthiness of [bytes] / [str]: non-empty. *)
Definition nonempty (s : string) : bool := negb (String.eqb s "").

Section Manager.

Context {Value W : Type} `{Json Value}.

(** The manager runs in a state made of itself and of the world [W] that
    the compute function may read and change. *)
Definition St : Type := Manager * W.

Definition self {A : Type} (c : M Manager A) : M St A :=
  zoom fst (fun m s => (m, snd s)) c.

Definition incr (c : counter) : M St unit :=
  self (modify (fun m => set_stats (bump c (stats m)) m)).

Definition print (l : line) : M St unit :=
  self (modify (fun m => set_printed (printed m ++ [l]) m)).

(** A method call on [self.redis]; on [None] Python raises AttributeError. *)
Definition on_redis {A : Type} (c : M Redis A) : M St A :=
  self (fun m =>
    match redis m with
    | Some r => let '(x, r') := c r in (x, set_redis r' m)
    | None => (Raise (AttributeError "NoneType"), m)
    end).

Definition on_postgres {A : Type} (c : M Postgres A) : M St A :=
  self (fun m =>
    match postgres m with
    | Some p => let '(x, p') := c p in (x, set_postgres p' m)
    | None => (Raise (AttributeError "NoneType"), m)
    end).

Definition loads (b : string) : M St Value := of_option JSONDecodeError (json_loads b).
Definition dumps (v : Value) : M St string := of_option TypeError (json_dumps v).

(** [_set_l1] (lines 189-215) *)
Definition _set_l1 (cache_key : string) (value : Value) : M St unit :=
  r ← gets (fun s => redis (fst s));
  if r is Some _ then
    try_except
      (serialized ← dumps value;
       ttl ← gets (fun s => l1_ttl (fst s));
       match ttl with
       | Some t => if t =? 0 then on_redis (redis_set cache_key serialized)
                   else on_redis (redis_setex cache_key t serialized)
       | None => on_redis (redis_set cache_key serialized)
       end;;
       current_size ← on_redis redis_dbsize;
       capacity ← gets (fun s => l1_capacity (fst s));
       if current_size >? capacity then incr Evictions else mret tt)
      (fun e => print (L1_set_error e))
  else mret tt.

(** [_set_l2] (lines 217-251).  The [rollback] of the handler is outside
    any [try]. *)
Definition _set_l2 (cache_key metadata_id property_name : string) (value : Value) : M St unit :=
  p ← gets (fun s => postgres (fst s));
  if p is Some _ then
    try_except
      (serialized ← dumps value;
       on_postgres pg_cursor;;
       on_postgres (pg_execute (Upsert cache_key metadata_id property_name serialized));;
       on_postgres pg_commit)
      (fun e =>
         print (L2_set_error e);;
         p' ← gets (fun s => postgres (fst s));
         if p' is Some _ then on_postgres pg_rollback else mret tt)
  else mret tt.

(** Lines 133-141 of [get]: [Some v] when the [return] is reached. *)
Definition get_l1 (cache_key : string) : M St (option Value) :=
  r ← gets (fun s => redis (fst s));
  if r is Some _ then
    try_except
      (cached_value ← on_redis (redis_get cache_key);
       match cached_value with
       | Some b =>
           if nonempty b then
             incr L1_hits;;
             v ← loads b;
             mret (Some v)
           else mret None
       | None => mret None
       end)
      (fun e => print (L1_cache_error e);; mret None)
  else mret None.

(** Lines 146-169 of [get]. *)
Definition get_l2 (cache_key : string) : M St (option Value) :=
  p ← gets (fun s => postgres (fst s));
  if p is Some _ then
    try_except
      (on_postgres pg_cursor;;
       on_postgres (pg_execute (SelectValue cache_key));;
       row ← on_postgres pg_fetchone;
       match row with
       | Some row0 =>
           incr L2_hits;;
           value ← loads row0;
           _set_l1 cache_key value;;
           mret (Some value)
       | None => mret None
       end)
      (fun e => print (L2_cache_error e);; mret None)
  else mret None.

(** A zero-argument callable acting on the world. *)
Definition callable : Type := W -> result Value * W.

Definition call (f : callable) : M St Value :=
  zoom snd (fun w s => (fst s, w)) f.

(** [get] (lines 102-187).  The result [None] is the final [return None]. *)
Definition get (metadata_id property_name : string) (compute_func : option callable)
    : M St (option Value) :=
  incr Total_accesses;;
  let cache_key := _generate_cache_key metadata_id property_name in
  hit1 ← get_l1 cache_key;
  match hit1 with
  | Some v => mret (Some v)
  | None =>
      hit2 ← get_l2 cache_key;
      match hit2 with
      | Some v => mret (Some v)
      | None =>
          match compute_func with
          | Some f =>
              incr Misses;;
              value ← call f;
              _set_l1 cache_key value;;
              _set_l2 cache_key metadata_id property_name value;;
              mret (Some value)
          | None => mret None
          end
      end
  end.

(** [_invalidate_key] (lines 288-309) *)
Definition _invalidate_key (cache_key : string) : M St unit :=
  r ← gets (fun s => redis (fst s));
  (if r is Some _ then
     try_except (on_redis (redis_delete cache_key))
                (fun e => print (L1_delete_error e))
   else mret tt);;
  p ← gets (fun s => postgres (fst s));
  if p is Some _ then
    try_except
      (on_postgres pg_cursor;;
       on_postgres (pg_execute (Delete cache_key));;
       on_postgres pg_commit)
      (fun e => print (L2_delete_error e))
  else mret tt.

(** [for key in keys: self._invalidate_key(key)] *)
Fixpoint for_each (keys : list string) (body : string -> M St unit) : M St unit :=
  match keys with
  | [] => mret tt
  | key :: rest => body key;; for_each rest body
  end.

(** [invalidate] (lines 253-286).  [property_name] is tested for truth:
    [None] and the empty string both select the whole entity. *)
Definition invalidate (metadata_id : string) (property_name : option string) : M St unit :=
  let specific :=
    match property_name with
    | Some p => if nonempty p then Some p else None
    | None => None
    end in
  match specific with
  | Some p => _invalidate_key (_generate_cache_key metadata_id p)
  | None =>
      pg ← gets (fun s => postgres (fst s));
      if pg is Some _ then
        try_except
          (on_postgres pg_cursor;;
           on_postgres (pg_execute (SelectKeys metadata_id));;
           keys ← on_postgres pg_fetchall;
           for_each keys _invalidate_key)
          (fun e => print (Invalidation_error e))
      else mret tt
  end.

End Manager.

(** ** Statistics *)

#[global] Instance result_ret : MRet result := fun A (a : A) => Ok a.

#[global] Instance result_bind : MBind result :=
  fun A B (k : A -> result B) (r : result A) =>
    match r with
    | Ok a => k a
    | Raise e => Raise e
    end.

(** Python's [float]: IEEE 754 binary64, with the operations as the
    standard specifies them (round to nearest, ties to even). *)
Definition float : Type := spec_float.

Definition fadd : float -> float -> float := SFadd 53 1024.
Definition fmul : float -> float -> float := SFmul 53 1024.
Definition fdiv : float -> float -> float := SFdiv 53 1024.
Definition feqb : float -> float -> bool := SFeqb.

(** [float(z)]; exact below [2 ** 53]. *)
Definition float_of_int (z : Z) : float := binary_normalize 53 1024 z 0 false.

(** Python's [a / b] on two [int]s, for operands below [2 ** 53], which
    convert exactly: the correctly rounded quotient. *)
Definition truediv (a b : Z) : result float :=
  if b =? 0 then Raise ZeroDivisionError
  else Ok (fdiv (float_of_int a) (float_of_int b)).

(** What [get_statistics] returns: [self.stats] itself, or a new dict
    with the four derived entries. *)
Inductive statistics : Type :=
| Counters (s : Stats)
| Derived (s : Stats) (l1_hit_rate l2_hit_rate miss_rate average_access_time_ms : float).

(** [_calculate_average_access_time] (lines 329-349) *)
Definition _calculate_average_access_time (m : Manager) : result float :=
  let total := total_accesses (stats m) in
  if total =? 0 then Ok (S754_zero false)
  else
    p_l1 ← truediv (l1_hits (stats m)) total;
    p_l2 ← truediv (l2_hits (stats m)) total;
    p_miss ← truediv (misses (stats m)) total;
    let t_l1 := float_of_int 1 in
    let t_l2 := float_of_int 10 in
    let t_compute := float_of_int 300 in
    Ok (fadd (fadd (fmul p_l1 t_l1) (fmul p_l2 t_l2)) (fmul p_miss t_compute)).

(** [get_statistics] (lines 311-327) *)
Definition get_statistics (m : Manager) : result statistics :=
  let total := total_accesses (stats m) in
  if total =? 0 then Ok (Counters (stats m))
  else
    l1_hit_rate ← truediv (l1_hits (stats m)) total;
    l2_hit_rate ← truediv (l2_hits (stats m)) total;
    miss_rate ← truediv (misses (stats m)) total;
    average ← _calculate_average_access_time m;
    Ok (Derived (stats m) l1_hit_rate l2_hit_rate miss_rate average).

(** ** [LazyProperty] *)

Module Lazy.

(** An entry of [_lazy_access_log]: a dict whose two keys may be missing. *)
Record log_entry : Type := LogEntry {
  computed_at : option Z;
  access_count : option Z }.

Section LazyProperty.

Context {Core Value W : Type}.

(** [time.time()], read from the world. *)
Variable time_time : W -> Z.

(** An instance: its declared fields, the attributes set on it later,
    and [_lazy_access_log] when the class has one. *)
Record Obj : Type := MkObj {
  core : Core;
  attrs : gmap string Value;
  _lazy_access_log : option (gmap string log_entry) }.

(** The descriptor: [self.func] and [func.__name__]. *)
Record LazyProperty : Type := MkLazyProperty {
  func : Obj -> W -> result Value * W;
  func_name : string }.

Definition attr_name (self : LazyProperty) : string :=
  ("_lazy_" ++ func_name self)%string.

Definition setattr (name : string) (v : Value) (o : Obj) : Obj :=
  MkObj (core o) (<[name := v]> (attrs o)) (_lazy_access_log o).

Definition set_log (l : gmap string log_entry) (o : Obj) : Obj :=
  MkObj (core o) (attrs o) (Some l).

(** Lines 82-100 of [__get__], on an instance. *)
Definition instance_get (self : LazyProperty) : M (Obj * W) Value :=
  memo ← gets (fun s => attrs (fst s) !! attr_name self);
  (match memo with
   | None =>
       value ← (fun s => let '(r, w) := func self (fst s) (snd s) in (r, (fst s, w)));
       modify (fun s => (setattr (attr_name self) value (fst s), snd s));;
       log ← gets (fun s => _lazy_access_log (fst s));
       match log with
       | Some l =>
           now ← gets (fun s => time_time (snd s));
           modify (fun s =>
             (set_log (<[func_name self := LogEntry (Some now) (Some 1)]> l) (fst s), snd s))
       | None => mret tt
       end
   | Some _ =>
       log ← gets (fun s => _lazy_access_log (fst s));
       match log with
       | Some l =>
           match l !! func_name self with
           | Some entry =>
               let n := default 0 (access_count entry) in
               modify (fun s =>
                 (set_log (<[func_name self := LogEntry (computed_at entry) (Some (n + 1))]> l)
                          (fst s), snd s))
           | None => mret tt
           end
       | None => mret tt
       end
   end);;
  stored ← gets (fun s => attrs (fst s) !! attr_name self);
  of_option (AttributeError (attr_name self)) stored.

Inductive got : Type :=
| Descriptor          (* [return self] *)
| Got (v : Value).

(** [__get__] (lines 70-100) *)
Definition __get__ (self : LazyProperty) (obj : option Obj) (w : W)
    : result got * (option Obj * W) :=
  match obj with
  | None => (Ok Descriptor, (None, w))
  | Some o =>
      let '(r, (o', w')) := instance_get self (o, w) in
      (match r with Ok v => Ok (Got v) | Raise e => Raise e end, (Some o', w'))
  end.

(** [__set__] (lines 102-108) *)
Definition __set__ (self : LazyProperty) (obj : Obj) (value : Value) : result unit :=
  Raise (AttributeError ("Cannot set lazy property '" ++ func_name self ++ "'")).

(** [n] successive reads of the property on the same instance. *)
Fixpoint reads (n : nat) (self : LazyProperty) (s : Obj * W) : list (result Value) * (Obj * W) :=
  match n with
  | O => ([], s)
  | S n' =>
      let '(r, s') := instance_get self s in
      let '(rs, s'') := reads n' self s' in
      (r :: rs, s'')
  end.

End LazyProperty.

(** The same descriptor over a world that also counts the invocations of
    the bound function. *)
Definition counting {Core Value W : Type} (self : @LazyProperty Core Value W)
    : @LazyProperty Core Value (W * nat) :=
  MkLazyProperty
    (fun o wn =>
       let '(r, w') := func self o (fst wn) in
       (r, (w', S (snd wn))))
    (func_name self).

End Lazy.

(** ** An instance of the serialization format: JSON integers *)

(** [json.dumps] of a Python [int], and [json.loads] of a text that is
    exactly such a literal; any other text is a decoding error. *)
Definition int_dumps (z : Z) : string := NilZero.string_of_int (Z.to_int z).

Definition int_loads (s : string) : option Z :=
  match NilZero.int_of_string s with
  | Some d => if String.eqb (int_dumps (Z.of_int d)) s then Some (Z.of_int d) else None
  | None => None
  end.

#[global] Instance int_json : Json Z := {
  json_dumps z := Some (int_dumps z);
  json_loads := int_loads }.

(** ** Sequences of calls *)

(** The three outcomes that the statistics tell apart. *)
Inductive outcome : Type := L1_hit | L2_hit | Computed.

Definition outcome_eqb (a b : outcome) : bool :=
  match a, b with
  | L1_hit, L1_hit | L2_hit, L2_hit | Computed, Computed => true
  | _, _ => false
  end.

Definition occurrences (o : outcome) (os : list outcome) : Z :=
  Z.of_nat (List.length (List.filter (outcome_eqb o) os)).

(** A call is counted as [o] when, of the three counters, it increments
    the one of [o] and no other. *)
Definition counted_as (o : outcome) (before after : Stats) : Prop :=
  match o with
  | L1_hit =>
      l1_hits after = l1_hits before + 1 /\ l2_hits after = l2_hits before /\
      misses after = misses before
  | L2_hit =>
      l1_hits after = l1_hits before /\ l2_hits after = l2_hits before + 1 /\
      misses after = misses before
  | Computed =>
      l1_hits after = l1_hits before /\ l2_hits after = l2_hits before /\
      misses after = misses before + 1
  end.

Section Runs.

Context {Value W : Type} `{Json Value}.

(** A sequence of calls of [get] on one manager, each of which returns a
    value and is counted as one outcome.  Between two calls only the
    counters are known to be kept: the tiers are shared with others. *)
Inductive run : Stats -> list outcome -> Stats -> Prop :=
| run_nil (st : Stats) : run st [] st
| run_call (st : Stats) (s : @St W) (metadata_id property_name : string)
    (compute_func : option (@callable Value W)) (v : Value) (s1 : @St W)
    (o : outcome) (os : list outcome) (st2 : Stats) :
    stats (fst s) = st ->
    get metadata_id property_name compute_func s = (Ok (Some v), s1) ->
    counted_as o st (stats (fst s1)) ->
    run (stats (fst s1)) os st2 ->
    run st (o :: os) st2.

(** [get] on each of the calls, in order. *)
Fixpoint get_each (calls : list (string * string * option (@callable Value W)))
    : M (@St W) (list (option Value)) :=
  match calls with
  | [] => mret []
  | (metadata_id, property_name, compute_func) :: rest =>
      r ← get metadata_id property_name compute_func;
      rs ← get_each rest;
      mret (r :: rs)
  end.

End Runs.

(** ** Vocabulary of the specifications *)

(** No [":"] occurs in the string. *)
Fixpoint no_colon (s : string) : bool :=
  match s with
  | EmptyString => true
  | String c s' => negb (Ascii.eqb c ":") && no_colon s'
  end.

(** What holds of a tier holds of it when it is present. *)
Definition if_present {T : Type} (tier : option T) (P : T -> Prop) : Prop :=
  match tier with
  | Some t => P t
  | None => True
  end.

(** The backends that are present raise on no call. *)
Definition tiers_healthy (m : Manager) : Prop :=
  if_present (redis m) (fun r => r_faults r = healthy) /\
  if_present (postgres m) (fun p => pg_faults p = healthy).

(** L1 maps [key] to the bytes [b]. *)
Definition l1_holds (m : Manager) (key b : string) : Prop :=
  if_present (redis m) (fun r => r_data r !! key = Some b).


(** L1 has nothing under [key]. *)
Definition l1_lacks (m : Manager) (key : string) : Prop :=
  if_present (redis m) (fun r => r_data r !! key = None).

(** L2 has no row under [key], pending or committed. *)
Definition l2_lacks (m : Manager) (key : string) : Prop :=
  if_present (postgres m) (fun p =>
    pg_table p !! key = None /\ pg_committed p !! key = None).

(** A lookup of [key] in L1 runs and finds nothing. *)
Definition l1_misses (m : Manager) (key : string) : Prop :=
  if_present (redis m) (fun r => r_faults r = healthy /\ r_data r !! key = None).

(** A lookup of [key] in L2 runs and finds nothing. *)
Definition l2_misses (m : Manager) (key : string) : Prop :=
  if_present (postgres m) (fun p => pg_faults p = healthy /\ pg_table p !! key = None).

(** What [_invalidate_key] makes of a manager whose tiers are healthy:
    one [DEL] on L1, one committed [DELETE] on L2. *)
Definition after_invalidate (m : Manager) (key : string) : Manager :=
  MkManager
    (option_map (fun r => MkRedis (delete key (r_data r)) (r_faults r) (r_sent r ++ [DEL key]))
                (redis m))
    (option_map (fun p => MkPostgres (delete key (pg_table p)) (delete key (pg_table p))
                            (pg_rows p) (pg_faults p)
                            (((pg_sent p ++ [Cursor]) ++ [Execute (Delete key)]) ++ [Commit]))
                (postgres m))
    (l1_capacity m) (l1_ttl m) (stats m) (printed m).


(** A computation that leaves the observation [f] of the state as it
    was, also when it raises. *)
Definition preserves {S A X : Type} (f : S -> X) (c : M S A) : Prop :=
  forall s, f (snd (c s)) = f s.

(** The observations that the backends and [print] cannot change: the
    counters and the world. *)
Definition counters_and_world {W : Type} (s : @St W) : Stats * W := (stats (fst s), snd s).

(** The number of accesses and the world, which [incr] of another
    counter cannot change either. *)
Definition accesses_and_world {W : Type} (s : @St W) : Z * W :=
  (total_accesses (stats (fst s)), snd s).

(** ** Concrete inputs of the examples *)

(** A bound function that returns the number of times it has run. *)
Definition tick : @Lazy.LazyProperty unit Z Z :=
  Lazy.MkLazyProperty (fun _ w => (Ok (w + 1), w + 1)) "histogram".

(** Another property of the same instances: its bound function returns
    ten more than the number of computations done before it. *)
Definition tock : @Lazy.LazyProperty unit Z Z :=
  Lazy.MkLazyProperty (fun _ w => (Ok (w + 10), w + 1)) "perceptual_hash".

(** A bound function that raises on its first run (the image is not
    there yet), then returns the number of times it has run. *)
Definition unready : @Lazy.LazyProperty unit Z Z :=
  Lazy.MkLazyProperty
    (fun _ w => if w =? 0 then (Raise (ComputeError "no image"), w + 1) else (Ok (w + 1), w + 1))
    "color_distribution".

(** A compute function that returns [v] and counts its invocations. *)
Definition returning (v : Z) : @callable Z nat := fun n => (Ok v, S n).

Definition empty_redis : Redis := MkRedis ∅ healthy [].
Definition empty_postgres : Postgres := MkPostgres ∅ ∅ [] healthy [].

(** A fresh manager over two empty, healthy tiers. *)
Definition fresh : Manager := __init__ (Some empty_redis) (Some empty_postgres) 1000 None.

(** L1 holds bytes that are not JSON under the key of
    [("e1", "histogram")]; L2 is empty.  Both tiers are healthy. *)
Definition corrupt_l1 : Manager :=
  __init__ (Some (MkRedis {[ _generate_cache_key "e1" "histogram" := "{bad"%string ]} healthy []))
           (Some empty_postgres) 1000 None.

(** No L1, and an L2 whose connection is closed: every call on it raises. *)
Definition closed_l2 : Manager :=
  __init__ None (Some (MkPostgres ∅ ∅ [] broken [])) 1000 None.

(** The manager a call leaves behind. *)
Definition manager_after {A : Type} (out : result A * (Manager * nat)) : Manager :=
  fst (snd out).


(** The manager left by a first [get] on two empty, healthy tiers. *)
Definition populated : Manager :=
  manager_after (get "e1" "histogram" (Some (returning 42)) (fresh, 0%nat)).

(** Nine properties of ["e1"] that L2 holds and L1 does not. *)
Definition cold_properties : list string :=
  ["q1"; "q2"; "q3"; "q4"; "q5"; "q6"; "q7"; "q8"; "q9"]%string.

Definition cold_table : gmap string row :=
  list_to_map (List.map (fun q => (_generate_cache_key "e1" q, Row "e1" q "7")) cold_properties).

Definition warm : Manager :=
  __init__ (Some empty_redis) (Some (MkPostgres cold_table cold_table [] healthy [])) 1000 None.

(** Thirty-five calls on [warm]: eight properties are computed, the nine
    cold ones are read from L2, and one property is read eighteen more
    times from L1. *)
Definition thirty_five_calls : list (string * string * option (@callable Z nat)) :=
  List.map (fun p => ("e1", p, Some (returning 42)))
           ["p1"; "p2"; "p3"; "p4"; "p5"; "p6"; "p7"; "p8"]%string ++
  List.map (fun q => ("e1"%string, q, None)) cold_properties ++
  List.repeat ("e1", "p1", None)%string 18.

(** A computation that returns normally from every state. *)
Definition never_raises {S A : Type} (c : M S A) : Prop :=
  forall s, exists a s', c s = (Ok a, s').

(** ** Further inputs and vocabulary *)

(** A compute function that raises, and counts its invocations. *)
Definition failing : @callable Z nat := fun n => (Raise (ComputeError "no image"), S n).

(** A healthy L1 that holds ["42"] for [("e1", "histogram")], over an
    empty L2. *)
Definition hot_redis : Redis :=
  MkRedis {[ _generate_cache_key "e1" "histogram" := "42"%string ]} healthy [].

Definition hot : Manager := __init__ (Some hot_redis) (Some empty_postgres) 1000 None.

(** What L1 has under [k], if there is an L1 and it has something. *)
Definition l1_lookup (m : Manager) (k : string) : option string :=
  match redis m with
  | Some r => r_data r !! k
  | None => None
  end.

(** The row that L2 has under [k] in its current view, if any. *)
Definition l2_lookup (m : Manager) (k : string) : option row :=
  match postgres m with
  | Some p => pg_table p !! k
  | None => None
  end.

(** No [DEL] has been sent to L1 between [m] and [m']. *)
Definition no_new_del (m m' : Manager) : Prop :=
  match redis m, redis m' with
  | Some r, Some r' => forall k, List.In (DEL k) (r_sent r') -> List.In (DEL k) (r_sent r)
  | _, _ => True
  end.

(** [hot] with room for one entry only: L1 is full. *)
Definition full : Manager := __init__ (Some hot_redis) (Some empty_postgres) 1 None.



(** An L1 whose next call raises, over an L2 that holds ["42"] for
    [("e1", "histogram")]. *)
Definition stuttering_redis : Redis := MkRedis ∅ (Faults [true] false) [].

Definition cold_row : row := Row "e1" "histogram" "42".

Definition cold_postgres : Postgres :=
  MkPostgres {[ _generate_cache_key "e1" "histogram" := cold_row ]}
             {[ _generate_cache_key "e1" "histogram" := cold_row ]} [] healthy [].

Definition stuttering : Manager :=
  __init__ (Some stuttering_redis) (Some cold_postgres) 1000 None.

(** The value of one counter. *)
Definition reading (c : counter) (s : Stats) : Z :=
  match c with
  | L1_hits => l1_hits s
  | L2_hits => l2_hits s
  | Misses => misses s
  | Evictions => evictions s
  | Total_accesses => total_accesses s
  end.

(** ** The manager after each stage of [get] *)




(** What a lookup of three healthy calls makes of L2. *)
Definition after_select (key : string) (rows : list string) (rest : faults) (p : Postgres)
    : Postgres :=
  MkPostgres (pg_table p) (pg_committed p) rows rest
    (((pg_sent p ++ [Cursor]) ++ [Execute (SelectValue key)]) ++ [Fetchone]).

(** Whether the manager has an L2. *)
Definition has_l2 (m : Manager) : bool :=
  match postgres m with
  | Some _ => true
  | None => false
  end.

Definition counter_eqb (a b : counter) : bool :=
  match a, b with
  | L1_hits, L1_hits | L2_hits, L2_hits | Misses, Misses
  | Evictions, Evictions | Total_accesses, Total_accesses => true
  | _, _ => false
  end.

(** From [before] to [after] no counter has decreased, the counters in
    [allowed] have grown by one at most, and the others are as they were. *)
Definition grew (allowed : list counter) (before after : Stats) : Prop :=
  forall c,
    reading c before <= reading c after <=
    reading c before + (if existsb (counter_eqb c) allowed then 1 else 0).

(** Whether [invalidate metadata_id property_name] leaves the key [k]
    alone in [m]: with a property name, [k] is not the key of the pair;
    without one (or with an empty one), L2 does not list [k] for the
    entity. *)
Definition untargeted (metadata_id : string) (property_name : option string) (m : Manager)
    (k : string) : Prop :=
  let elsewhere := forall rw, l2_lookup m k = Some rw -> row_metadata_id rw <> metadata_id in
  match property_name with
  | Some p => if nonempty p then k <> _generate_cache_key metadata_id p else elsewhere
  | None => elsewhere
  end.

(** An L2 that holds nine rows of ["e1"] and whose second call raises. *)
Definition dropping_l2 : Postgres :=
  MkPostgres cold_table cold_table [] (Faults ([false; true] ++ []) false) [].

Definition dropping : Manager := __init__ (Some hot_redis) (Some dropping_l2) 1000 None.

(** The entry of the access log of an instance under [name], if the
    instance has a log and the log has the entry. *)
Definition log_lookup {Core Value : Type} (o : @Lazy.Obj Core Value) (name : string)
    : option Lazy.log_entry :=
  match Lazy._lazy_access_log o with
  | Some l => l !! name
  | None => None
  end.

(** A bound function that raises once, then returns the number of times
    it has run. *)
Definition shaky : @Lazy.LazyProperty unit Z Z :=
  Lazy.MkLazyProperty
    (fun _ w => if w =? 0 then (Raise (ComputeError "no image"), w + 1) else (Ok (w + 1), w + 1))
    "texture_metrics".

(** ** The metadata record ([ColorCombinationMetadata]) *)

Module Metadata.

(** The seven fields of Set E. *)
Record Fields : Type := MkFields {
  id : string;
  frame_color : string;
  drawer_color : string;
  delta_e : float;
  created_at : float;
  source_image_path : string;
  transformed_image_path : string }.

(** The bodies of the four lazy properties: computations of numpy, PIL,
    skimage and imagehash on the file at a path.  They read the world
    (the file system) and raise when the file cannot be read. *)
Record Imaging (Value W : Type) : Type := MkImaging {
  histogram_of : string -> W -> result Value * W;
  color_distribution_of : string -> W -> result Value * W;
  texture_metrics_of : string -> W -> result Value * W;
  perceptual_hash_of : string -> W -> result Value * W }.

Arguments histogram_of {Value W}.
Arguments color_distribution_of {Value W}.
Arguments texture_metrics_of {Value W}.
Arguments perceptual_hash_of {Value W}.

Section ColorCombinationMetadata.

Context {Value W : Type} `{Json Value}.

Variable time_time : W -> Z.
Variable imaging : Imaging Value W.

Implicit Types (self : @Lazy.Obj Fields Value) (prop : @Lazy.LazyProperty Fields Value W).

(** The dataclass constructor; [_lazy_access_log] defaults to a new dict. *)
Definition __init__ (fields : Fields) (_lazy_access_log : option (gmap string Lazy.log_entry))
    : @Lazy.Obj Fields Value :=
  Lazy.MkObj fields ∅ (Some (default ∅ _lazy_access_log)).

(** The four decorated methods: each body reads
    [self.transformed_image_path] only. *)
Definition histogram : @Lazy.LazyProperty Fields Value W :=
  Lazy.MkLazyProperty
    (fun self => histogram_of imaging (transformed_image_path (Lazy.core self))) "histogram".

Definition color_distribution : @Lazy.LazyProperty Fields Value W :=
  Lazy.MkLazyProperty
    (fun self => color_distribution_of imaging (transformed_image_path (Lazy.core self)))
    "color_distribution".

Definition texture_metrics : @Lazy.LazyProperty Fields Value W :=
  Lazy.MkLazyProperty
    (fun self => texture_metrics_of imaging (transformed_image_path (Lazy.core self)))
    "texture_metrics".

Definition perceptual_hash : @Lazy.LazyProperty Fields Value W :=
  Lazy.MkLazyProperty
    (fun self => perceptual_hash_of imaging (transformed_image_path (Lazy.core self)))
    "perceptual_hash".

(** The list [lazy_properties] of [get_lazy_size], each name with the
    descriptor that [getattr(self, prop_name)] finds on the class. *)
Definition lazy_properties : list (@Lazy.LazyProperty Fields Value W) :=
  [histogram; color_distribution; texture_metrics; perceptual_hash].

Definition hasattr self (name : string) : bool :=
  match Lazy.attrs self !! name with
  | Some _ => true
  | None => false
  end.

(** [len(json.dumps(value).encode('utf-8'))] *)
Definition measure (value : Value) : M (@Lazy.Obj Fields Value * W) Z :=
  serialized ← of_option TypeError (json_dumps value);
  mret (Z.of_nat (String.length serialized)).

(** The loop of [get_lazy_size] (lines 307-320), from [total_size]. *)
Fixpoint sizes (props : list (@Lazy.LazyProperty Fields Value W)) (include_uncomputed : bool)
    (total_size : Z) : M (@Lazy.Obj Fields Value * W) Z :=
  match props with
  | [] => mret total_size
  | prop :: rest =>
      computed ← gets (fun s => hasattr (fst s) (Lazy.attr_name prop));
      if include_uncomputed || computed then
        value ← (if include_uncomputed then Lazy.instance_get time_time prop
                 else
                   stored ← gets (fun s => Lazy.attrs (fst s) !! Lazy.attr_name prop);
                   of_option (AttributeError (Lazy.attr_name prop)) stored);
        size ← measure value;
        sizes rest include_uncomputed (total_size + size)
      else sizes rest include_uncomputed total_size
  end.

(** [get_lazy_size] (lines 294-322) *)
Definition get_lazy_size (include_uncomputed : bool) : M (@Lazy.Obj Fields Value * W) Z :=
  sizes lazy_properties include_uncomputed 0.

Record access_statistics : Type := MkAccessStatistics {
  log : gmap string Lazy.log_entry;
  properties_computed : Z;
  total_lazy_properties : Z }.

(** [get_access_statistics] (lines 324-334) *)
Definition get_access_statistics self : result access_statistics :=
  match Lazy._lazy_access_log self with
  | Some l => Ok (MkAccessStatistics l (Z.of_nat (size l)) 4)
  | None => Raise (AttributeError "_lazy_access_log")
  end.

(** What a caller does to an instance: read a lazy property, or measure
    Set L. *)
Inductive access : Type :=
| Read (prop : @Lazy.LazyProperty Fields Value W)
| Measure (include_uncomputed : bool).

Definition perform (s : @Lazy.Obj Fields Value * W) (a : access) : @Lazy.Obj Fields Value * W :=
  match a with
  | Read prop => snd (Lazy.instance_get time_time prop s)
  | Measure include_uncomputed => snd (get_lazy_size include_uncomputed s)
  end.

(** An access that the class allows: the property read is one of the four. *)
Definition declared (a : access) : Prop :=
  match a with
  | Read prop => List.In prop lazy_properties
  | Measure _ => True
  end.

(** The lazy properties whose slot is set. *)
Definition computed_properties self : list (@Lazy.LazyProperty Fields Value W) :=
  List.filter (fun prop => hasattr self (Lazy.attr_name prop)) lazy_properties.

(** The instance has an access log, and the log has an entry under a
    name exactly when the name is that of a lazy property whose slot is
    set. *)
Definition log_matches_slots self : Prop :=
  exists l,
    Lazy._lazy_access_log self = Some l /\
    forall name,
      is_Some (l !! name) <->
      List.In name (List.map Lazy.func_name lazy_properties) /\
      is_Some (Lazy.attrs self !! ("_lazy_" ++ name)%string).

End ColorCombinationMetadata.

End Metadata.

(** A computation that keeps [P] of the state, also when it raises. *)
Definition maintains {S A : Type} (P : S -> Prop) (c : M S A) : Prop :=
  forall s, P s -> P (snd (c s)).

(** Whether the map has an entry under the key. *)
Definition has_key {V : Type} (l : gmap string V) (k : string) : bool :=
  match l !! k with
  | Some _ => true
  | None => false
  end.

(** An imaging library over integers: each computation returns a number
    that depends on the world alone, and advances the world by one. *)
Definition toy_imaging : Metadata.Imaging Z Z :=
  Metadata.MkImaging Z Z
    (fun _ w => (Ok (10 + w), w + 1))
    (fun _ w => (Ok (200 + w), w + 1))
    (fun _ w => (Ok (3000 + w), w + 1))
    (fun _ w => (Ok (40000 + w), w + 1)).

Definition sample_fields : Metadata.Fields :=
  Metadata.MkFields "c0ffee" "RAL 7016" "RAL 5015" (float_of_int 0) (float_of_int 0)
    "/tmp/colorwerkz/test/source.png" "/tmp/colorwerkz/test/transformed.png".

(** A lowercase hexadecimal digit. *)
Definition is_hex (c : ascii) : bool :=
  existsb (Ascii.eqb c) (list_ascii_of_string "0123456789abcdef").

(** [fresh] with a time to live of an hour on L1. *)
Definition expiring : Manager :=
  __init__ (Some empty_redis) (Some empty_postgres) 1000 (Some 3600).





(** ** Sequences of calls on a manager *)

Section Requests.

Context {Value W : Type} `{Json Value}.

(** A call by a client of the manager. *)
Inductive request : Type :=
| Get (metadata_id property_name : string) (compute_func : option (@callable Value W))
| Invalidate (metadata_id : string) (property_name : option string).

(** The state that a call leaves, whether it returns or raises. *)
Definition serve (s : @St W) (r : request) : @St W :=
  match r with
  | Get metadata_id property_name compute_func =>
      snd (get metadata_id property_name compute_func s)
  | Invalidate metadata_id property_name =>
      snd (invalidate metadata_id property_name s)
  end.

Definition is_get (r : request) : bool :=
  match r with
  | Get _ _ _ => true
  | Invalidate _ _ => false
  end.

End Requests.

(** What holds of the counters of every manager: each of the three
    outcome counters is between zero and [total_accesses], and
    [evictions] between zero and the number of writes to L1 that follow
    an L2 hit or a miss. *)
Definition counters_consistent (st : Stats) : Prop :=
  0 <= l1_hits st <= total_accesses st /\
  0 <= l2_hits st <= total_accesses st /\
  0 <= misses st <= total_accesses st /\
  0 <= evictions st <= l2_hits st + misses st.

(** * Theorems *)

(** ** SHA-256: the standard test vectors *)

Example sha256_abc :
  string_of_list_ascii (Sha256.hexdigest "abc") =
  "ba7816bf8f01cfea414140de5dae2223b00361a396177a9cb410ff61f20015ad"%string.
Proof. vm_compute. reflexivity. Qed.

Example sha256_empty :
  string_of_list_ascii (Sha256.hexdigest "") =
  "e3b0c44298fc1c149afbf4c8996fb92427ae41e4649b934ca495991b7852b855"%string.
Proof. vm_compute. reflexivity. Qed.

Example sha256_two_blocks :
  string_of_list_ascii (Sha256.hexdigest
    "abcdbcdecdefdefgefghfghighijhijkijkljklmklmnlmnomnopnopq") =
  "248d6a61d20638b8e5c026930c3e6039a33ce45964ff2167f6ecedd419db06c1"%string.
Proof. vm_compute. reflexivity. Qed.

Lemma hexdigest_length (b : string) : List.length (Sha256.hexdigest b) = 64%nat.
Proof.
  unfold Sha256.hexdigest, Sha256.hex_regs.
  generalize (Sha256.digest (Sha256.bytes_of_string b)); intros h.
  repeat rewrite List.length_app. reflexivity.
Qed.

Lemma string_of_list_ascii_length (l : list ascii) :
  String.length (string_of_list_ascii l) = List.length l.
Proof. induction l as [|c l IH]; simpl; [reflexivity | now rewrite IH]. Qed.

Lemma string_of_list_ascii_inj (l1 l2 : list ascii) :
  string_of_list_ascii l1 = string_of_list_ascii l2 -> l1 = l2.
Proof.
  intros E. rewrite <- (list_ascii_of_string_of_list_ascii l1).
  rewrite E. apply list_ascii_of_string_of_list_ascii.
Qed.

(** ** The cache key *)

Lemma cache_key_length (metadata_id property_name : string) :
  String.length (_generate_cache_key metadata_id property_name) = 16%nat.
Proof.
  unfold _generate_cache_key.
  rewrite string_of_list_ascii_length, List.length_firstn, hexdigest_length.
  reflexivity.
Qed.

Example cache_key_e1_histogram :
  _generate_cache_key "e1" "histogram" = "c1064307adf466ea"%string.
Proof. vm_compute. reflexivity. Qed.

Lemma append_String (c : ascii) (a b : string) :
  String.append (String c a) b = String c (String.append a b).
Proof. reflexivity. Qed.

Lemma append_Empty (b : string) : String.append EmptyString b = b.
Proof. reflexivity. Qed.

(** With no colon in [m1] and [m2], the first colon of
    [m ++ ":" ++ p] is the separator. *)
Lemma colon_separated_inj (m1 m2 p1 p2 : string) :
  no_colon m1 = true -> no_colon m2 = true ->
  String.append m1 (String ":" p1) = String.append m2 (String ":" p2) ->
  m1 = m2 /\ p1 = p2.
Proof.
  revert m2. induction m1 as [|c m1 IH]; intros [|c2 m2] N1 N2 E;
    rewrite ?append_String, ?append_Empty in E; cbn [no_colon] in *.
  - injection E as ->. split; reflexivity.
  - injection E as <- _. discriminate N2.
  - injection E as -> _. discriminate N1.
  - injection E as -> E.
    apply andb_prop in N1 as [_ N1]. apply andb_prop in N2 as [_ N2].
    destruct (IH m2 N1 N2 E) as [-> ->]. split; reflexivity.
Qed.

Lemma key_string_inj (m1 p1 m2 p2 : string) :
  no_colon m1 = true -> no_colon m2 = true ->
  key_string m1 p1 = key_string m2 p2 -> m1 = m2 /\ p1 = p2.
Proof.
  intros N1 N2 E. unfold key_string in E.
  rewrite ?append_String, ?append_Empty in E.
  apply (colon_separated_inj m1 m2 p1 p2 N1 N2).
  congruence.
Qed.

(** C4, as stated, fails: two distinct pairs build the same string
    ["metadata:a:b:c"], hence the same key, with no hash collision
    involved. *)
Lemma cache_key_colon_collision :
  ("a:b", "c")%string <> ("a", "b:c")%string /\
  key_string "a:b" "c" = key_string "a" "b:c" /\
  _generate_cache_key "a:b" "c" = _generate_cache_key "a" "b:c".
Proof. split; [discriminate | split; reflexivity]. Qed.

(** C4, amended: the key is a function of the pair, always 16 characters
    long; and two pairs whose identifiers contain no colon get the same
    key only if they are the same pair, or if truncated SHA-256 collides
    on their two different key strings. *)
Theorem cache_key_colon_free (m1 p1 m2 p2 : string) :
  no_colon m1 = true -> no_colon m2 = true ->
  String.length (_generate_cache_key m1 p1) = 16%nat /\
  (_generate_cache_key m1 p1 = _generate_cache_key m2 p2 ->
   (m1 = m2 /\ p1 = p2) \/
   (key_string m1 p1 <> key_string m2 p2 /\
    List.firstn 16 (Sha256.hexdigest (key_string m1 p1)) =
    List.firstn 16 (Sha256.hexdigest (key_string m2 p2)))).
Proof.
  intros N1 N2. split; [apply cache_key_length |].
  intros E. destruct (string_dec (key_string m1 p1) (key_string m2 p2)) as [Ek | Ek].
  - left. now apply key_string_inj.
  - right. split; [exact Ek |]. now apply string_of_list_ascii_inj.
Qed.

Lemma cache_key_colon_free_witness :
  String.length (_generate_cache_key "e1" "histogram") = 16%nat /\
  (_generate_cache_key "e1" "histogram" = _generate_cache_key "e1" "histogram" ->
   ("e1"%string = "e1"%string /\ "histogram"%string = "histogram"%string) \/
   (key_string "e1" "histogram" <> key_string "e1" "histogram" /\
    List.firstn 16 (Sha256.hexdigest (key_string "e1" "histogram")) =
    List.firstn 16 (Sha256.hexdigest (key_string "e1" "histogram")))).
Proof.
  apply (cache_key_colon_free "e1" "histogram" "e1" "histogram"); reflexivity.
Defined.

(** ** Statistics *)

Lemma truediv_defined (a b : Z) : b <> 0 -> exists q, truediv a b = Ok q.
Proof.
  intros Hb. unfold truediv. destruct (Z.eqb_spec b 0) as [E | _]; [contradiction |].
  eexists; reflexivity.
Qed.

(** Whatever the counters are, no division by zero is reached. *)
Lemma get_statistics_never_raises (m : Manager) :
  (exists r, get_statistics m = Ok r) /\
  (exists q, _calculate_average_access_time m = Ok q).
Proof.
  assert (A : exists q, _calculate_average_access_time m = Ok q).
  { unfold _calculate_average_access_time.
    destruct (Z.eqb_spec (total_accesses (stats m)) 0) as [E | N]; [eexists; reflexivity |].
    destruct (truediv_defined (l1_hits (stats m)) _ N) as [q1 ->].
    destruct (truediv_defined (l2_hits (stats m)) _ N) as [q2 ->].
    destruct (truediv_defined (misses (stats m)) _ N) as [q3 ->].
    eexists; reflexivity. }
  split; [| exact A].
  unfold get_statistics.
  destruct (Z.eqb_spec (total_accesses (stats m)) 0) as [E | N]; [eexists; reflexivity |].
  destruct (truediv_defined (l1_hits (stats m)) _ N) as [q1 ->].
  destruct (truediv_defined (l2_hits (stats m)) _ N) as [q2 ->].
  destruct (truediv_defined (misses (stats m)) _ N) as [q3 ->].
  destruct A as [q ->]. eexists; reflexivity.
Qed.

(** C9: with [total_accesses] at zero, [get_statistics] returns the
    counters themselves, with no derived entry, and
    [_calculate_average_access_time] returns 0.0; neither reaches a
    division. *)
Theorem statistics_without_accesses (m : Manager) :
  total_accesses (stats m) = 0 ->
  get_statistics m = Ok (Counters (stats m)) /\
  _calculate_average_access_time m = Ok (S754_zero false).
Proof.
  intros E. unfold get_statistics, _calculate_average_access_time.
  rewrite E. split; reflexivity.
Qed.

Lemma statistics_without_accesses_witness :
  get_statistics (__init__ None None 1000 None) = Ok (Counters (MkStats 0 0 0 0 0)) /\
  _calculate_average_access_time (__init__ None None 1000 None) = Ok (S754_zero false).
Proof.
  apply (statistics_without_accesses (__init__ None None 1000 None)). reflexivity.
Defined.

(** Three counters that add up to [t] give exact quotients by [t] that
    add up to one. *)
Lemma quotients_sum_to_one (a b c t : Z) :
  t <> 0 -> a + b + c = t ->
  Qeq (Qplus (Qplus (Qdiv (inject_Z a) (inject_Z t)) (Qdiv (inject_Z b) (inject_Z t)))
             (Qdiv (inject_Z c) (inject_Z t)))
      (inject_Z 1).
Proof.
  intros N E.
  assert (Nq : ~ Qeq (inject_Z t) (inject_Z 0)).
  { intros Hq. apply N. unfold Qeq in Hq. simpl in Hq. lia. }
  apply Qeq_trans with (Qdiv (Qplus (Qplus (inject_Z a) (inject_Z b)) (inject_Z c)) (inject_Z t)).
  - field. exact Nq.
  - rewrite <- !inject_Z_plus, E. field. exact Nq.
Qed.

(** ** The lazy property *)

Section LazyFacts.

Context {Core Value W : Type}.
Variable time_time : W -> Z.

Implicit Types (self : @Lazy.LazyProperty Core Value W) (o : @Lazy.Obj Core Value).

Ltac run_lazy :=
  unfold Lazy.instance_get, of_option, raise, gets, modify, mbind, M_bind, mret, M_ret;
  cbn [fst snd Lazy.attrs Lazy.setattr Lazy.set_log Lazy._lazy_access_log Lazy.core].

(** First read: the bound function runs once and its value is stored. *)
Lemma instance_get_first self o (w w1 : W) (v : Value) :
  Lazy.attrs o !! Lazy.attr_name self = None ->
  Lazy.func self o w = (Ok v, w1) ->
  exists o',
    Lazy.instance_get time_time self (o, w) = (Ok v, (o', w1)) /\
    Lazy.attrs o' !! Lazy.attr_name self = Some v.
Proof.
  intros Hnone Hf. run_lazy. rewrite Hnone. run_lazy. rewrite Hf. run_lazy.
  destruct (Lazy._lazy_access_log o) as [l |]; run_lazy;
    rewrite lookup_insert_eq; eexists; (split; [reflexivity |]);
    cbn [Lazy.attrs]; apply lookup_insert_eq.
Qed.

(** Later reads: the stored value comes back and the world is untouched,
    so the bound function did not run. *)
Lemma instance_get_memoized self o (w : W) (v : Value) :
  Lazy.attrs o !! Lazy.attr_name self = Some v ->
  exists o',
    Lazy.instance_get time_time self (o, w) = (Ok v, (o', w)) /\
    Lazy.attrs o' = Lazy.attrs o.
Proof.
  intros Hsome. run_lazy. rewrite Hsome. run_lazy.
  destruct (Lazy._lazy_access_log o) as [l |]; run_lazy.
  - destruct (l !! Lazy.func_name self) as [entry |]; run_lazy;
      rewrite Hsome; eexists; split; reflexivity.
  - rewrite Hsome. eexists; split; reflexivity.
Qed.

Lemma reads_memoized (n : nat) self o (w : W) (v : Value) :
  Lazy.attrs o !! Lazy.attr_name self = Some v ->
  exists o',
    Lazy.reads time_time n self (o, w) = (List.repeat (Ok v) n, (o', w)) /\
    Lazy.attrs o' = Lazy.attrs o.
Proof.
  revert o. induction n as [| n IH]; intros o Hsome; cbn [Lazy.reads List.repeat].
  - eexists; split; reflexivity.
  - destruct (instance_get_memoized self o w v Hsome) as (o1 & -> & E1).
    destruct (IH o1) as (o2 & -> & E2); [now rewrite E1 |].
    exists o2. split; [reflexivity | congruence].
Qed.

(** The same two reads, with what they leave of the instance: a first
    read sets the slot of the property and nothing else, a later read
    sets no slot; neither touches the declared fields. *)
Lemma instance_get_first_frame self o (w w1 : W) (v : Value) :
  Lazy.attrs o !! Lazy.attr_name self = None ->
  Lazy.func self o w = (Ok v, w1) ->
  exists o',
    Lazy.instance_get time_time self (o, w) = (Ok v, (o', w1)) /\
    Lazy.attrs o' = <[Lazy.attr_name self := v]> (Lazy.attrs o) /\
    Lazy.core o' = Lazy.core o.
Proof.
  intros Hnone Hf. run_lazy. rewrite Hnone. run_lazy. rewrite Hf. run_lazy.
  destruct (Lazy._lazy_access_log o) as [l |]; run_lazy;
    rewrite lookup_insert_eq; eexists; repeat split.
Qed.

Lemma instance_get_memoized_frame self o (w : W) (v : Value) :
  Lazy.attrs o !! Lazy.attr_name self = Some v ->
  exists o',
    Lazy.instance_get time_time self (o, w) = (Ok v, (o', w)) /\
    Lazy.attrs o' = Lazy.attrs o /\
    Lazy.core o' = Lazy.core o.
Proof.
  intros Hsome. run_lazy. rewrite Hsome. run_lazy.
  destruct (Lazy._lazy_access_log o) as [l |]; run_lazy.
  - destruct (l !! Lazy.func_name self) as [entry |]; run_lazy;
      rewrite Hsome; eexists; repeat split.
  - rewrite Hsome. eexists; repeat split.
Qed.

Lemma reads_memoized_frame (n : nat) self o (w : W) (v : Value) :
  Lazy.attrs o !! Lazy.attr_name self = Some v ->
  exists o',
    Lazy.reads time_time n self (o, w) = (List.repeat (Ok v) n, (o', w)) /\
    Lazy.attrs o' = Lazy.attrs o /\
    Lazy.core o' = Lazy.core o.
Proof.
  revert o. induction n as [| n IH]; intros o Hsome; cbn [Lazy.reads List.repeat].
  - eexists; repeat split.
  - destruct (instance_get_memoized_frame self o w v Hsome) as (o1 & -> & E1 & C1).
    destruct (IH o1) as (o2 & -> & E2 & C2); [now rewrite E1 |].
    exists o2. split; [reflexivity |]. split; congruence.
Qed.

End LazyFacts.

(** C3, amended.  On an instance whose slot is not yet set, when the
    bound function returns [v], any number [n + 1] of reads of a lazy
    property all return [v], the first of them through [__get__], and
    the function is invoked exactly once: the invocation count goes from
    0 to 1, and the world is the one left by that single invocation.
    The value is kept in the slot of that property alone: the slot of
    every property of another name is as it was, so that any number
    [k + 1] of reads of such a property, if its slot is not set either
    and its function returns [v'], all return [v'] and invoke that
    function exactly once in turn (the count goes from 1 to 2), and the
    first property keeps [v]. *)
Theorem lazy_property_computed_once {Core Value W : Type} (time_time : W -> Z)
    (self : @Lazy.LazyProperty Core Value W) (obj : @Lazy.Obj Core Value)
    (w w1 : W) (v : Value) (n : nat) :
  Lazy.attrs obj !! Lazy.attr_name self = None ->
  Lazy.func self obj w = (Ok v, w1) ->
  let now := fun wn : W * nat => time_time (fst wn) in
  exists obj',
    Lazy.reads now (S n) (Lazy.counting self) (obj, (w, 0%nat)) =
      (List.repeat (Ok v) (S n), (obj', (w1, 1%nat))) /\
    fst (Lazy.__get__ now (Lazy.counting self) (Some obj) (w, 0%nat)) = Ok (Lazy.Got v) /\
    Lazy.attrs obj' !! Lazy.attr_name self = Some v /\
    forall other : @Lazy.LazyProperty Core Value W,
      Lazy.func_name other <> Lazy.func_name self ->
      Lazy.attrs obj' !! Lazy.attr_name other = Lazy.attrs obj !! Lazy.attr_name other /\
      forall (w2 : W) (v' : Value) (k : nat),
        Lazy.attrs obj !! Lazy.attr_name other = None ->
        (forall o, Lazy.core o = Lazy.core obj -> Lazy.func other o w1 = (Ok v', w2)) ->
        exists obj'',
          Lazy.reads now (S k) (Lazy.counting other) (obj', (w1, 1%nat)) =
            (List.repeat (Ok v') (S k), (obj'', (w2, 2%nat))) /\
          Lazy.attrs obj'' !! Lazy.attr_name other = Some v' /\
          Lazy.attrs obj'' !! Lazy.attr_name self = Some v.
Proof.
  intros Hnone Hf now.
  destruct (instance_get_first_frame now (Lazy.counting self) obj (w, 0%nat) (w1, 1%nat) v)
    as (o1 & E1 & A1 & C1).
  { exact Hnone. }
  { cbn. now rewrite Hf. }
  assert (H1 : Lazy.attrs o1 !! Lazy.attr_name (Lazy.counting self) = Some v).
  { rewrite A1. apply lookup_insert_eq. }
  destruct (reads_memoized_frame now n (Lazy.counting self) o1 (w1, 1%nat) v H1)
    as (o2 & E2 & A2 & C2).
  exists o2. split; [| split; [| split]].
  - cbn [Lazy.reads List.repeat]. rewrite E1, E2. reflexivity.
  - unfold Lazy.__get__. rewrite E1. reflexivity.
  - rewrite A2. exact H1.
  - intros other Hne.
    assert (Hslot : Lazy.attr_name (Lazy.counting self) <> Lazy.attr_name other).
    { intros E. apply Hne. unfold Lazy.attr_name in E. cbn in E. now injection E. }
    assert (Hframe : Lazy.attrs o2 !! Lazy.attr_name other =
                     Lazy.attrs obj !! Lazy.attr_name other).
    { rewrite A2, A1. now apply lookup_insert_ne. }
    split; [exact Hframe |].
    intros w2 v' k Hnone' Hf'.
    destruct (instance_get_first_frame now (Lazy.counting other) o2 (w1, 1%nat)
                (w2, 2%nat) v') as (o3 & E3 & A3 & C3).
    { change (Lazy.attr_name (Lazy.counting other)) with (Lazy.attr_name other).
      rewrite Hframe. exact Hnone'. }
    { cbn. rewrite (Hf' o2); [reflexivity | congruence]. }
    assert (H3 : Lazy.attrs o3 !! Lazy.attr_name (Lazy.counting other) = Some v').
    { rewrite A3. apply lookup_insert_eq. }
    destruct (reads_memoized_frame now k (Lazy.counting other) o3 (w2, 2%nat) v' H3)
      as (o4 & E4 & A4 & C4).
    exists o4. split; [| split].
    + cbn [Lazy.reads List.repeat]. rewrite E3, E4. reflexivity.
    + rewrite A4. exact H3.
    + rewrite A4, A3.
      change (Lazy.attr_name (Lazy.counting other)) with (Lazy.attr_name other).
      rewrite lookup_insert_ne by (intros E; apply Hslot; now rewrite E).
      rewrite A2. exact H1.
Qed.

Lemma lazy_property_computed_once_witness :
  let now := fun wn : Z * nat => fst wn in
  let new := Lazy.MkObj tt (∅ : gmap string Z) (Some ∅) in
  exists obj' obj'',
    Lazy.reads now 3 (Lazy.counting tick) (new, (0, 0%nat)) =
      ([Ok 1; Ok 1; Ok 1], (obj', (1, 1%nat))) /\
    fst (Lazy.__get__ now (Lazy.counting tick) (Some new) (0, 0%nat)) = Ok (Lazy.Got 1) /\
    Lazy.attrs obj' !! Lazy.attr_name tick = Some 1 /\
    Lazy.attrs obj' !! Lazy.attr_name tock = None /\
    Lazy.reads now 2 (Lazy.counting tock) (obj', (1, 1%nat)) =
      ([Ok 11; Ok 11], (obj'', (2, 2%nat))) /\
    Lazy.attrs obj'' !! Lazy.attr_name tock = Some 11 /\
    Lazy.attrs obj'' !! Lazy.attr_name tick = Some 1.
Proof.
  intros now new.
  destruct (lazy_property_computed_once (fun w => w) tick new 0 1 1 2)
    as (obj' & E1 & G1 & A1 & Hother); [reflexivity | reflexivity |].
  destruct (Hother tock) as [F1 Hnext]; [discriminate |].
  destruct (Hnext 2 11 1%nat) as (obj'' & E2 & A2 & A3);
    [reflexivity | intros o _; reflexivity |].
  exists obj', obj''. repeat split; first [assumption | rewrite F1; reflexivity].
Defined.

(** C3, as stated, fails for a bound function that raises.  The first
    read of [unready] raises and memoizes nothing, so the second read
    invokes the function again: two reads, two invocations, and the slot
    is set by the second only. *)
Lemma raising_property_computed_twice :
  let now := fun wn : Z * nat => fst wn in
  let new := Lazy.MkObj tt (∅ : gmap string Z) (Some ∅) in
  let first := Lazy.instance_get now (Lazy.counting unready) (new, (0, 0%nat)) in
  let both := Lazy.reads now 2 (Lazy.counting unready) (new, (0, 0%nat)) in
  fst first = Raise (ComputeError "no image") /\
  Lazy.attrs (fst (snd first)) !! Lazy.attr_name unready = None /\
  fst both = [Raise (ComputeError "no image"); Ok 2] /\
  snd (snd (snd both)) = 2%nat /\
  Lazy.attrs (fst (snd both)) !! Lazy.attr_name unready = Some 2.
Proof. vm_compute. repeat split. Qed.

(** ** The cache manager *)

Ltac run_mgr :=
  unfold get, get_l1, get_l2, _set_l1, _set_l2, _invalidate_key, call, dumps, loads,
    incr, print, on_redis, on_postgres, self, zoom, gets, modify, try_except,
    of_option, raise, mbind, M_bind, mret, M_ret,
    redis_get, redis_set, redis_setex, redis_delete, redis_dbsize, redis_call,
    pg_cursor, pg_execute, pg_fetchone, pg_fetchall, pg_commit, pg_rollback, pg_call;
  simpl.

Ltac split_ttl_and_capacity :=
  try (match goal with
       | |- context [ match ?ttl with Some _ => _ | None => _ end ] =>
           is_var ttl; destruct ttl as [? |]; simpl
       end);
  try (match goal with
       | |- context [ if ?t =? 0 then _ else _ ] => destruct (t =? 0); simpl
       end);
  try (match goal with
       | |- context [ if ?a >? ?b then _ else _ ] => destruct (a >? b); simpl
       end).

Section ManagerFacts.

Context {Value W : Type} `{Json Value}.


(** C2: with the key absent from a healthy L1 and present in a healthy
    L2 under bytes that decode to [v], [get] returns [v], counts one L2
    hit and nothing else, and afterwards L1 holds the key with bytes that
    decode to [v]; every other L1 entry is as before and no [DEL] was
    sent to L1.  The serialization format is assumed to write back what
    it has read. *)
Theorem get_l2_hit_promotes (metadata_id property_name : string) (compute_func : option callable)
    (m : Manager) (w : W) (r : Redis) (p : Postgres) (rw : row) (v : Value) :
  (forall b x, json_loads b = Some x ->
     exists b', json_dumps x = Some b' /\ json_loads b' = Some x) ->
  let key := _generate_cache_key metadata_id property_name in
  redis m = Some r -> r_faults r = healthy -> r_data r !! key = None ->
  postgres m = Some p -> pg_faults p = healthy -> pg_table p !! key = Some rw ->
  json_loads (row_value rw) = Some v ->
  exists m' r' b',
    get metadata_id property_name compute_func (m, w) = (Ok (Some v), (m', w)) /\
    l2_hits (stats m') = l2_hits (stats m) + 1 /\
    l1_hits (stats m') = l1_hits (stats m) /\
    misses (stats m') = misses (stats m) /\
    redis m' = Some r' /\
    r_data r' !! key = Some b' /\ json_loads b' = Some v /\
    (forall k, k <> key -> r_data r' !! k = r_data r !! k) /\
    (forall k, List.In (DEL k) (r_sent r') -> List.In (DEL k) (r_sent r)).
Proof.
  intros law key Hr Hrf L1 Hp Hpf L2 Hl.
  destruct (law _ _ Hl) as (b' & Hd & Hl').
  unfold get. change (_generate_cache_key metadata_id property_name) with key. clearbody key.
  destruct m as [rd pg cap ttl st pr]. simpl in Hr, Hp. subst rd pg.
  destruct r as [d fs sent], p as [t c rows pfs psent]. simpl in *. subst fs pfs.
  run_mgr.
  repeat (first [rewrite L1 | rewrite L2 | rewrite Hl | rewrite Hd]; simpl).
  split_ttl_and_capacity.
  all: do 3 eexists; (split; [reflexivity |]); simpl.
  all: repeat first [ reflexivity | exact Hl' | apply lookup_insert_eq | split ].
  all: try (intros k Hk; now apply lookup_insert_ne).
  all: intros k Hin; cbn [r_sent] in Hin;
       rewrite !List.in_app_iff in Hin; simpl in Hin; intuition discriminate.
Qed.

(** The L1 stage of [get] on bytes that do not decode, in any state:
    the stage falls through without raising, and [l1_hits] has been
    incremented. *)
Lemma get_l1_corrupt (key b : string) (m : Manager) (w : W) (r : Redis) (fs : faults) :
  redis m = Some r -> next_fault (r_faults r) = (false, fs) ->
  r_data r !! key = Some b -> nonempty b = true -> json_loads b = None ->
  exists m',
    get_l1 key (m, w) = (Ok None, (m', w)) /\
    l1_hits (stats m') = l1_hits (stats m) + 1 /\
    printed m' = printed m ++ [L1_cache_error JSONDecodeError].
Proof.
  intros Hr Hf Hb Hn Hl. destruct m as [rd pg cap ttl st pr]. simpl in Hr. subst rd.
  run_mgr. rewrite Hf. simpl. rewrite Hb, Hn. simpl. rewrite Hl. simpl.
  eexists. repeat split.
Qed.

End ManagerFacts.


Lemma int_loads_dumps (z : Z) : int_loads (int_dumps z) = Some z.
Proof.
  unfold int_loads, int_dumps.
  rewrite NilZero.isi.
  - rewrite DecimalZ.of_to, String.eqb_refl. reflexivity.
  - destruct z; simpl; try discriminate.
    intros [= E]. now apply (Unsigned.to_uint_nonnil p).
  - destruct z; simpl; try discriminate.
    intros [= E]. now apply (Unsigned.to_uint_nonnil p).
Qed.

(** JSON integers are written back as they were read. *)
Lemma int_json_round_trip (b : string) (x : Z) :
  json_loads b = Some x -> exists b', json_dumps x = Some b' /\ json_loads b' = Some x.
Proof.
  intros _. exists (int_dumps x). split; [reflexivity | apply int_loads_dumps].
Qed.

(** A manager whose L1 is empty and whose L2 holds ["42"] for
    [("e1", "histogram")]. *)
Lemma get_l2_hit_promotes_witness :
  let key := _generate_cache_key "e1" "histogram" in
  let p := MkPostgres {[ key := Row "e1" "histogram" "42" ]}
                      {[ key := Row "e1" "histogram" "42" ]} [] healthy [] in
  let m := __init__ (Some empty_redis) (Some p) 1000 None in
  exists m' r' b',
    get "e1" "histogram" (@None (@callable Z nat)) (m, 0%nat) = (Ok (Some 42), (m', 0%nat)) /\
    l2_hits (stats m') = l2_hits (stats m) + 1 /\
    l1_hits (stats m') = l1_hits (stats m) /\
    misses (stats m') = misses (stats m) /\
    redis m' = Some r' /\
    r_data r' !! key = Some b' /\ json_loads b' = Some 42 /\
    (forall k, k <> key -> r_data r' !! k = r_data empty_redis !! k) /\
    (forall k, List.In (DEL k) (r_sent r') -> List.In (DEL k) (r_sent empty_redis)).
Proof.
  intros key p m.
  apply (get_l2_hit_promotes "e1" "histogram" None m 0%nat empty_redis p
           (Row "e1" "histogram" "42") 42 int_json_round_trip);
    reflexivity.
Defined.

(** ** Cached bytes that fail to deserialize *)

(** C5 at a failing input.  L1 returns bytes that do not parse and a
    compute function is supplied.  The call does not raise and falls
    through to the compute function, whose value it returns and stores;
    but [l1_hits] was incremented before parsing, so this one call is
    counted both as an L1 hit and as a miss. *)
Lemma corrupt_l1_entry_counted_as_hit :
  let out := get "e1" "histogram" (Some (returning 42)) (corrupt_l1, 0%nat) in
  fst out = Ok (Some 42) /\
  snd (snd out) = 1%nat /\
  stats (manager_after out) = MkStats 1 0 1 0 1 /\
  printed (manager_after out) = [L1_cache_error JSONDecodeError] /\
  l1_holds (manager_after out) (_generate_cache_key "e1" "histogram") "42".
Proof. vm_compute. repeat split. Qed.

(** The same happens in L2: [l2_hits] is incremented before parsing. *)
Lemma corrupt_l2_entry_counted_as_hit :
  let key := _generate_cache_key "e1" "histogram" in
  let p := MkPostgres {[ key := Row "e1" "histogram" "{bad" ]}
                      {[ key := Row "e1" "histogram" "{bad" ]} [] healthy [] in
  let out := get "e1" "histogram" (Some (returning 42))
                 (__init__ (Some empty_redis) (Some p) 1000 None, 0%nat) in
  fst out = Ok (Some 42) /\
  stats (manager_after out) = MkStats 0 1 1 0 1.
Proof. vm_compute. repeat split. Qed.

(** C10 at a failing input.  The same manager, no compute function: the
    call returns absent, yet [l1_hits] was incremented, and
    [l1_hits + l2_hits + misses] equals [total_accesses] instead of
    being less. *)
Lemma absent_get_increments_l1_hits :
  let out := get "e1" "histogram" (@None (@callable Z nat)) (corrupt_l1, 0%nat) in
  fst out = Ok None /\
  stats (manager_after out) = MkStats 1 0 0 0 1 /\
  l1_hits (stats (manager_after out)) + l2_hits (stats (manager_after out)) +
    misses (stats (manager_after out)) = total_accesses (stats (manager_after out)).
Proof. vm_compute. repeat split. Qed.

(** ** A backend failure that reaches the caller *)

(** C8 at a failing input.  The compute function returns 42, but [get]
    raises the error of the PostgreSQL connection: the write to L2 fails,
    and the [rollback] in its handler, which no [try] protects, fails
    too. *)
Lemma get_raises_backend_error :
  let out := get "e1" "histogram" (Some (returning 42)) (closed_l2, 0%nat) in
  fst out = Raise (ConnectionError "postgres") /\
  snd (snd out) = 1%nat /\
  printed (manager_after out) =
    [L2_cache_error (ConnectionError "postgres"); L2_set_error (ConnectionError "postgres")].
Proof. vm_compute. repeat split. Qed.

(** ** Invalidation *)

Section InvalidateFacts.

Context {Value W : Type} `{Json Value}.

Lemma never_raises_ret {S A : Type} (a : A) : never_raises (mret a : M S A).
Proof. intros s. now exists a, s. Qed.

Lemma never_raises_bind {S A B : Type} (c : M S A) (k : A -> M S B) :
  never_raises c -> (forall a, never_raises (k a)) -> never_raises (c ≫= k).
Proof.
  intros Hc Hk s. destruct (Hc s) as (a & s1 & E1). destruct (Hk a s1) as (b & s2 & E2).
  exists b, s2. unfold mbind, M_bind. now rewrite E1.
Qed.

(** A [try] whose handler returns normally returns normally, whatever
    its body does. *)
Lemma never_raises_try {S A : Type} (body : M S A) (handler : exn -> M S A) :
  (forall e, never_raises (handler e)) -> never_raises (try_except body handler).
Proof.
  intros Hh s. unfold try_except. destruct (body s) as [[a | e] s1].
  - now exists a, s1.
  - apply Hh.
Qed.

Lemma never_raises_gets {S A : Type} (f : S -> A) : never_raises (gets f).
Proof. intros s. now exists (f s), s. Qed.

Lemma never_raises_print (l : line) : never_raises (print (W := W) l).
Proof. intros s. eexists _, _. reflexivity. Qed.



(** On healthy tiers [_invalidate_key] deletes the key from both. *)
Lemma _invalidate_key_healthy (key : string) (m : Manager) (w : W) :
  tiers_healthy m ->
  _invalidate_key key (m, w) = (Ok tt, (after_invalidate m key, w)).
Proof.
  intros [H1 H2]. destruct m as [rd pg cap ttl st pr].
  destruct rd as [[d fs sent] |], pg as [[t c rows pfs psent] |];
    unfold if_present in *; simpl in *; subst; reflexivity.
Qed.

Lemma after_invalidate_healthy (key : string) (m : Manager) :
  tiers_healthy m -> tiers_healthy (after_invalidate m key).
Proof.
  intros [H1 H2]. destruct m as [[r |] [p |] cap ttl st pr];
    unfold tiers_healthy, if_present in *; simpl in *; auto.
Qed.

Lemma after_invalidate_lacks (key : string) (m : Manager) :
  l1_lacks (after_invalidate m key) key /\ l2_lacks (after_invalidate m key) key.
Proof.
  destruct m as [[r |] [p |] cap ttl st pr];
    unfold l1_lacks, l2_lacks, if_present; simpl;
    repeat split; auto; apply lookup_delete_eq.
Qed.





Lemma foldl_after_invalidate_healthy (ks : list string) (m : Manager) :
  tiers_healthy m -> tiers_healthy (foldl after_invalidate m ks).
Proof.
  revert m. induction ks as [| k ks IH]; intros m Hm; simpl; [exact Hm |].
  now apply IH, after_invalidate_healthy.
Qed.


(** The keys that [SELECT cache_key ... WHERE metadata_id = %s] lists. *)
Lemma keys_of_spec (mid k : string) (t : gmap string row) :
  k ∈ keys_of mid t <-> exists rw, t !! k = Some rw /\ row_metadata_id rw = mid.
Proof.
  unfold keys_of. rewrite list_elem_of_bind. split.
  - intros ([k' rw] & Hin & Hmap). simpl in Hin.
    destruct (String.eqb_spec (row_metadata_id rw) mid) as [E | N].
    + apply list_elem_of_singleton in Hin as ->.
      exists rw. split; [now apply elem_of_map_to_list | exact E].
    + inversion Hin.
  - intros (rw & Hl & E). exists (k, rw). split.
    + simpl. rewrite E, String.eqb_refl. now apply list_elem_of_singleton.
    + now apply elem_of_map_to_list.
Qed.


End InvalidateFacts.


(** The same, for a whole entity. *)
Example invalidate_entity_populated :
  let out := invalidate "e1" None (populated, 1%nat) in
  fst out = Ok tt /\
  l1_lacks (manager_after out) (_generate_cache_key "e1" "histogram") /\
  l2_lacks (manager_after out) (_generate_cache_key "e1" "histogram").
Proof. vm_compute. repeat split. Qed.



(** ** What [get] counts and what it raises, on every state *)

Section GetFacts.

Context {Value W : Type} `{Json Value}.

Lemma bind_ok {S A B : Type} (c : M S A) (k : A -> M S B) (s : S) (a : A) (s1 : S) :
  c s = (Ok a, s1) -> (c ≫= k) s = k a s1.
Proof. intros E. unfold mbind, M_bind. now rewrite E. Qed.

Lemma preserves_ret {S A X : Type} (f : S -> X) (a : A) : preserves f (mret a : M S A).
Proof. intros s. reflexivity. Qed.

Lemma preserves_bind {S A B X : Type} (f : S -> X) (c : M S A) (k : A -> M S B) :
  preserves f c -> (forall a, preserves f (k a)) -> preserves f (c ≫= k).
Proof.
  intros Hc Hk s. unfold mbind, M_bind. specialize (Hc s).
  destruct (c s) as [[a | e] s1]; simpl in *; [| exact Hc].
  rewrite <- Hc. apply Hk.
Qed.

Lemma preserves_try {S A X : Type} (f : S -> X) (body : M S A) (handler : exn -> M S A) :
  preserves f body -> (forall e, preserves f (handler e)) ->
  preserves f (try_except body handler).
Proof.
  intros Hb Hh s. unfold try_except. specialize (Hb s).
  destruct (body s) as [[a | e] s1]; simpl in *; [exact Hb |].
  rewrite <- Hb. apply Hh.
Qed.

Lemma preserves_gets {S A X : Type} (f : S -> X) (g : S -> A) : preserves f (gets g).
Proof. intros s. reflexivity. Qed.

Lemma preserves_of_option {S A X : Type} (f : S -> X) (e : exn) (o : option A) :
  preserves f (of_option e o : M S A).
Proof. intros s. destruct o; reflexivity. Qed.

Lemma preserves_on_redis {A : Type} (c : M Redis A) : preserves (@counters_and_world W) (on_redis c).
Proof.
  intros [m w]. unfold on_redis, self, zoom. simpl.
  destruct (redis m) as [r |]; [destruct (c r) |]; reflexivity.
Qed.

Lemma preserves_on_postgres {A : Type} (c : M Postgres A) :
  preserves (@counters_and_world W) (on_postgres c).
Proof.
  intros [m w]. unfold on_postgres, self, zoom. simpl.
  destruct (postgres m) as [p |]; [destruct (c p) |]; reflexivity.
Qed.

Lemma preserves_print (l : line) : preserves (@counters_and_world W) (print l).
Proof. intros [m w]. reflexivity. Qed.

Lemma preserves_weaken {A : Type} (c : M St A) :
  preserves (@counters_and_world W) c -> preserves (@accesses_and_world W) c.
Proof.
  intros Hc s. specialize (Hc s). unfold counters_and_world, accesses_and_world in *.
  now injection Hc as -> ->.
Qed.

Lemma preserves_incr (c : counter) :
  c <> Total_accesses -> preserves (@accesses_and_world W) (incr c).
Proof. intros Hc [m w]. destruct c; [reflexivity .. | contradiction]. Qed.

Ltac preserved :=
  repeat first
    [ apply preserves_ret | apply preserves_gets | apply preserves_of_option
    | apply preserves_weaken, preserves_on_redis
    | apply preserves_weaken, preserves_on_postgres
    | apply preserves_weaken, preserves_print
    | apply preserves_incr; discriminate
    | apply preserves_try; [| intros ?]
    | apply preserves_bind; [| intros ?]
    | match goal with |- preserves _ (match ?x with _ => _ end) => destruct x end ].

Lemma preserves__set_l1 (cache_key : string) (value : Value) :
  preserves (@accesses_and_world W) (_set_l1 cache_key value).
Proof. unfold _set_l1, dumps. preserved. Qed.

Lemma preserves__set_l2 (cache_key metadata_id property_name : string) (value : Value) :
  preserves (@accesses_and_world W) (_set_l2 cache_key metadata_id property_name value).
Proof. unfold _set_l2, dumps. preserved. Qed.

Lemma preserves_get_l1 (cache_key : string) :
  preserves (@accesses_and_world W) (get_l1 cache_key).
Proof. unfold get_l1, loads. preserved. Qed.

Lemma preserves_get_l2 (cache_key : string) :
  preserves (@accesses_and_world W) (get_l2 cache_key).
Proof. unfold get_l2, loads. preserved. Qed.

Lemma preserves_total {A : Type} (c : M St A) :
  preserves (@accesses_and_world W) c ->
  preserves (fun s : @St W => total_accesses (stats (fst s))) c.
Proof.
  intros Hc s. specialize (Hc s). unfold accesses_and_world in Hc.
  now injection Hc as -> _.
Qed.

Lemma preserves_call (f : callable) :
  preserves (fun s : @St W => total_accesses (stats (fst s))) (call (Value := Value) f).
Proof. intros [m w]. unfold call, zoom. simpl. destruct (f w). reflexivity. Qed.

(** Every invocation of [get] adds exactly one to [total_accesses]:
    whatever the tiers hold or do, whether or not a compute function is
    given, and whether the call returns a value, returns absent or
    raises. *)
Lemma get_counts_every_access (metadata_id property_name : string)
    (compute_func : option (@callable Value W)) (s : @St W) :
  total_accesses (stats (fst (snd (get metadata_id property_name compute_func s)))) =
  total_accesses (stats (fst s)) + 1.
Proof.
  unfold get.
  set (rest := mbind _ (get_l1 _)).
  assert (Hrest : preserves (fun s : @St W => total_accesses (stats (fst s))) rest).
  { subst rest.
    apply preserves_bind;
      [apply preserves_total, preserves_get_l1 | intros [v |]];
      [apply preserves_ret |].
    apply preserves_bind;
      [apply preserves_total, preserves_get_l2 | intros [v |]];
      [apply preserves_ret |].
    destruct compute_func as [f |]; [| apply preserves_ret].
    apply preserves_bind; [apply preserves_total, preserves_incr; discriminate |].
    intros _. apply preserves_bind; [apply preserves_call | intros value].
    apply preserves_bind; [apply preserves_total, preserves__set_l1 | intros _].
    apply preserves_bind; [apply preserves_total, preserves__set_l2 | intros _].
    apply preserves_ret. }
  destruct s as [m w]. unfold mbind at 1, M_bind at 1. simpl.
  rewrite (Hrest _). reflexivity.
Qed.

Ltac unraised :=
  repeat first
    [ apply never_raises_ret | apply never_raises_gets | apply never_raises_print
    | apply never_raises_try; intros ?
    | apply never_raises_bind; [| intros ?]
    | match goal with |- never_raises (match ?x with _ => _ end) => destruct x end ].

(** The lookups and the write to L1 return normally from every state. *)
Lemma get_l1_never_raises (cache_key : string) :
  never_raises (get_l1 (Value := Value) (W := W) cache_key).
Proof. unfold get_l1. unraised. Qed.

Lemma get_l2_never_raises (cache_key : string) :
  never_raises (get_l2 (Value := Value) (W := W) cache_key).
Proof. unfold get_l2. unraised. Qed.

Lemma _set_l1_never_raises (cache_key : string) (value : Value) :
  never_raises (_set_l1 (W := W) cache_key value).
Proof. unfold _set_l1. unraised. Qed.

(** The write to L2 raises only what its unprotected [rollback] raises. *)
Lemma _set_l2_raises (cache_key metadata_id property_name : string) (value : Value)
    (s s' : @St W) (e : exn) :
  _set_l2 cache_key metadata_id property_name value s = (Raise e, s') ->
  e = ConnectionError "postgres".
Proof.
  destruct s as [m w]. unfold _set_l2. unfold mbind at 1, M_bind at 1, gets at 1. simpl.
  destruct (postgres m) as [p |]; [| discriminate].
  unfold try_except.
  match goal with |- context [ match ?body (m, w) with _ => _ end ] =>
    destruct (body (m, w)) as [[[] | e0] [m1 w1]] end; [discriminate |].
  unfold print, on_postgres, self, zoom, modify, gets, pg_rollback, pg_call, mbind, M_bind.
  simpl.
  destruct (postgres m1) as [p1 |] eqn:E1; [| discriminate]. simpl. rewrite E1.
  destruct (next_fault (pg_faults p1)) as [[] fs]; simpl; [| discriminate].
  now intros [= <- _].
Qed.

(** A stage that never raises and keeps the world returns in the same
    world. *)
Lemma stage_returns {A : Type} (c : M St A) (m : Manager) (w : W) :
  never_raises c -> preserves (@accesses_and_world W) c ->
  exists a m', c (m, w) = (Ok a, (m', w)).
Proof.
  intros Hn Hp. destruct (Hn (m, w)) as (a & [m' w'] & E).
  specialize (Hp (m, w)). rewrite E in Hp. unfold accesses_and_world in Hp. simpl in Hp.
  injection Hp as _ ->. now exists a, m'.
Qed.

(** When [get] raises, a compute function was supplied and was invoked in
    the world of the call; and either it raised that exception, or it
    returned and the exception is that of the PostgreSQL connection,
    raised by the [rollback] of a failed write to L2. *)
Lemma get_raises_only (metadata_id property_name : string)
    (compute_func : option (@callable Value W)) (m : Manager) (w : W) (e : exn) (s' : @St W) :
  get metadata_id property_name compute_func (m, w) = (Raise e, s') ->
  exists f, compute_func = Some f /\
    (fst (f w) = Raise e \/
     (e = ConnectionError "postgres" /\ exists v, fst (f w) = Ok v)).
Proof.
  unfold get. generalize (_generate_cache_key metadata_id property_name); intros key.
  rewrite (bind_ok (incr Total_accesses) _ (m, w) tt _ eq_refl). simpl.
  match goal with |- context [ (?m0, w) ] =>
    destruct (stage_returns (get_l1 key) m0 w (get_l1_never_raises key) (preserves_get_l1 key))
      as (hit1 & m1 & E1) end.
  rewrite (bind_ok _ _ _ _ _ E1).
  destruct hit1 as [v1 |]; [discriminate |].
  destruct (stage_returns (get_l2 key) m1 w (get_l2_never_raises key) (preserves_get_l2 key))
    as (hit2 & m2 & E2).
  rewrite (bind_ok _ _ _ _ _ E2).
  destruct hit2 as [v2 |]; [discriminate |].
  destruct compute_func as [f |]; [| discriminate].
  intros E. exists f. split; [reflexivity |].
  revert E. rewrite (bind_ok (incr Misses) _ (m2, w) tt _ eq_refl).
  unfold mbind at 1, M_bind at 1, call at 1, zoom. simpl.
  destruct (f w) as [[v | e1] w1]; simpl.
  - match goal with |- context [ (?m3, w1) ] =>
      destruct (_set_l1_never_raises key v (m3, w1)) as ([] & s4 & E4) end.
    rewrite (bind_ok _ _ _ _ _ E4).
    unfold mbind at 1, M_bind at 1.
    destruct (_set_l2 key metadata_id property_name v s4) as [[[] | e2] s5] eqn:E5.
    + discriminate.
    + intros [= <- _]. right. split; [| now exists v].
      exact (_set_l2_raises _ _ _ _ _ _ _ E5).
  - intros [= <- _]. now left.
Qed.

(** Without a compute function [get] returns normally from every state. *)
Lemma get_without_compute_never_raises (metadata_id property_name : string) :
  never_raises (get (Value := Value) (W := W) metadata_id property_name None).
Proof.
  intros [m w].
  destruct (get metadata_id property_name None (m, w)) as [[a | e] s'] eqn:E.
  - now exists a, s'.
  - destruct (get_raises_only _ _ _ _ _ _ _ E) as (f & Hf & _). discriminate.
Qed.

End GetFacts.

(** ** Statistics after a sequence of calls *)

Lemma occurrences_cons (o o' : outcome) (os : list outcome) :
  occurrences o (o' :: os) = (if outcome_eqb o o' then 1 else 0) + occurrences o os.
Proof.
  unfold occurrences. simpl. destruct (outcome_eqb o o'); simpl; lia.
Qed.

Lemma occurrences_total (os : list outcome) :
  occurrences L1_hit os + occurrences L2_hit os + occurrences Computed os =
  Z.of_nat (List.length os).
Proof.
  induction os as [| o os IH]; [reflexivity |].
  rewrite !occurrences_cons. cbn [List.length]. destruct o; simpl; lia.
Qed.

Section RunFacts.

Context {Value W : Type} `{Json Value}.

(** After a run, each counter has grown by the number of calls counted
    as its outcome, and [total_accesses] by the number of calls. *)
Lemma run_counts (st0 st : Stats) (os : list outcome) :
  run (Value := Value) (W := W) st0 os st ->
  l1_hits st = l1_hits st0 + occurrences L1_hit os /\
  l2_hits st = l2_hits st0 + occurrences L2_hit os /\
  misses st = misses st0 + occurrences Computed os /\
  total_accesses st = total_accesses st0 + Z.of_nat (List.length os).
Proof.
  induction 1 as [st | st s mid prop cf v s1 o os st2 Hst Hget Hcount _ IH].
  - unfold occurrences. simpl. lia.
  - pose proof (get_counts_every_access mid prop cf s) as Htotal.
    rewrite Hget, Hst in Htotal. simpl in Htotal.
    destruct IH as (I1 & I2 & I3 & I4).
    rewrite !occurrences_cons. cbn [List.length].
    destruct o; simpl in Hcount |- *; lia.
Qed.

(** The rates of a run that counts every call once.  On a manager that
    starts with its counters at zero, after a non-empty sequence of
    calls of [get] each of which returns a value and increments exactly
    one of [l1_hits], [l2_hits] and [misses] (H1, H2 and M of them),
    [get_statistics] reports the three rates as the floats [H1 / T],
    [H2 / T] and [M / T], where [T = H1 + H2 + M]; the quotients
    themselves, as rationals, add up to 1.  Nothing is said here of the
    sum of the floats, nor of a call that increments two counters. *)
Theorem rates_after_run (os : list outcome) (st : Stats) (m : Manager) :
  run (Value := Value) (W := W) (MkStats 0 0 0 0 0) os st ->
  os <> [] -> stats m = st ->
  let h1 := occurrences L1_hit os in
  let h2 := occurrences L2_hit os in
  let ms := occurrences Computed os in
  exists r1 r2 r3 avg,
    truediv h1 (h1 + h2 + ms) = Ok r1 /\
    truediv h2 (h1 + h2 + ms) = Ok r2 /\
    truediv ms (h1 + h2 + ms) = Ok r3 /\
    get_statistics m = Ok (Derived st r1 r2 r3 avg) /\
    Qeq (Qplus (Qplus (Qdiv (inject_Z h1) (inject_Z (h1 + h2 + ms)))
                      (Qdiv (inject_Z h2) (inject_Z (h1 + h2 + ms))))
               (Qdiv (inject_Z ms) (inject_Z (h1 + h2 + ms))))
        (inject_Z 1).
Proof.
  intros Hrun Hne Hm h1 h2 ms.
  destruct (run_counts _ _ _ Hrun) as (C1 & C2 & C3 & C4). simpl in C1, C2, C3, C4.
  pose proof (occurrences_total os) as Htot. fold h1 h2 ms in Htot.
  assert (Hpos : h1 + h2 + ms <> 0).
  { rewrite Htot. destruct os; [contradiction | simpl; lia]. }
  assert (Ht : total_accesses (stats m) = h1 + h2 + ms) by (rewrite Hm; lia).
  destruct (truediv_defined h1 _ Hpos) as [r1 E1].
  destruct (truediv_defined h2 _ Hpos) as [r2 E2].
  destruct (truediv_defined ms _ Hpos) as [r3 E3].
  destruct (get_statistics_never_raises m) as [_ [avg Ea]].
  exists r1, r2, r3, avg. repeat split; try assumption.
  - unfold get_statistics. rewrite Ea, Ht, Hm, C1, C2, C3. fold h1 h2 ms.
    destruct (Z.eqb_spec (h1 + h2 + ms) 0) as [E0 | _]; [contradiction |].
    rewrite !Z.add_0_l, E1, E2, E3. reflexivity.
  - now apply quotients_sum_to_one.
Qed.

End RunFacts.

Lemma rates_after_run_witness :
  exists r1 r2 r3 avg,
    truediv 0 (0 + 0 + 1) = Ok r1 /\
    truediv 0 (0 + 0 + 1) = Ok r2 /\
    truediv 1 (0 + 0 + 1) = Ok r3 /\
    get_statistics populated = Ok (Derived (stats populated) r1 r2 r3 avg) /\
    Qeq (Qplus (Qplus (Qdiv (inject_Z 0) (inject_Z (0 + 0 + 1)))
                      (Qdiv (inject_Z 0) (inject_Z (0 + 0 + 1))))
               (Qdiv (inject_Z 1) (inject_Z (0 + 0 + 1))))
        (inject_Z 1).
Proof.
  apply (rates_after_run (Value := Z) (W := nat) [Computed] (stats populated) populated).
  - apply (run_call _ (fresh, 0%nat) "e1" "histogram" (Some (returning 42)) 42
             (populated, 1%nat) Computed [] _ eq_refl).
    + vm_compute. reflexivity.
    + vm_compute. repeat split.
    + apply run_nil.
  - discriminate.
  - reflexivity.
Defined.

(** Rounding alone stays within tolerance.  Thirty-five calls on [warm]
    all return a value: 18 hits in L1, 9 hits in L2 and 8 computations,
    with no fault of any kind.  The three reported rates are the floats
    18/35, 9/35 and 8/35; their sum is not 1.0 but the float just below
    it, 0.9999999999999999, in whichever order they are added. *)
Lemma clean_run_rates_do_not_sum_to_one :
  let out := get_each thirty_five_calls (warm, 0%nat) in
  let one := float_of_int 1 in
  let r1 := fdiv (float_of_int 18) (float_of_int 35) in
  let r2 := fdiv (float_of_int 9) (float_of_int 35) in
  let r3 := fdiv (float_of_int 8) (float_of_int 35) in
  let avg := fadd (fadd (fmul r1 (float_of_int 1)) (fmul r2 (float_of_int 10)))
                  (fmul r3 (float_of_int 300)) in
  match fst out with
  | Ok vs => List.forallb (fun v => match v with Some _ => true | None => false end) vs
  | Raise _ => false
  end = true /\
  stats (manager_after out) = MkStats 18 9 8 0 35 /\
  truediv 18 (18 + 9 + 8) = Ok r1 /\
  get_statistics (manager_after out) = Ok (Derived (MkStats 18 9 8 0 35) r1 r2 r3 avg) /\
  feqb (fadd (fadd r1 r2) r3) one = false /\
  feqb (fadd (fadd r1 r3) r2) one = false /\
  feqb (fadd (fadd r2 r3) r1) one = false /\
  feqb (fadd r1 (fadd r2 r3)) one = false /\
  fadd (fadd r1 r2) r3 = S754_finite false 9007199254740991 (-53).
Proof. vm_compute. repeat split. Qed.

(** C7 at a failing input.  One call of [get] on [corrupt_l1] with a
    compute function: the bytes in L1 do not decode, the value 42 is
    computed (one invocation) and returned.  The sequence has produced
    no L1 hit, no L2 hit and one compute miss, so the claimed
    [l1_hit_rate] is the float 0/1 = 0.0 and the claimed sum is 1.  But
    [l1_hits] was incremented before parsing: [get_statistics] reports
    an [l1_hit_rate] of 1.0, a [miss_rate] of 1.0, and rates that add up
    to 2.0. *)
Lemma corrupt_entry_breaks_rates :
  let out := get "e1" "histogram" (Some (returning 42)) (corrupt_l1, 0%nat) in
  let zero := float_of_int 0 in
  let one := float_of_int 1 in
  fst out = Ok (Some 42) /\
  snd (snd out) = 1%nat /\
  truediv 0 (0 + 0 + 1) = Ok zero /\
  get_statistics (manager_after out) =
    Ok (Derived (MkStats 1 0 1 0 1) one zero one (float_of_int 301)) /\
  feqb one zero = false /\
  fadd (fadd one zero) one = float_of_int 2 /\
  feqb (fadd (fadd one zero) one) one = false.
Proof. vm_compute. repeat split. Qed.

(** * Further properties of the cache manager *)

Section MoreGetFacts.

Context {Value W : Type} `{Json Value}.

(** X1.  A hit in L1: with the key in a healthy L1 under non-empty bytes that
    decode to [v], [get] returns [v] and counts one access and one L1
    hit.  L2 is not contacted, the compute function is not invoked, and
    L1 has only been sent the one [GET]. *)
Theorem get_l1_hit (metadata_id property_name : string)
    (compute_func : option (@callable Value W)) (m : Manager) (w : W)
    (r : Redis) (b : string) (v : Value) :
  let key := _generate_cache_key metadata_id property_name in
  redis m = Some r -> r_faults r = healthy ->
  r_data r !! key = Some b -> nonempty b = true -> json_loads b = Some v ->
  exists m',
    get metadata_id property_name compute_func (m, w) = (Ok (Some v), (m', w)) /\
    stats m' = bump L1_hits (bump Total_accesses (stats m)) /\
    redis m' = Some (MkRedis (r_data r) healthy (r_sent r ++ [GET key])) /\
    postgres m' = postgres m /\
    printed m' = printed m.
Proof.
  intros key Hr Hf Hb Hn Hl.
  unfold get. change (_generate_cache_key metadata_id property_name) with key. clearbody key.
  destruct m as [rd pg cap ttl st pr]. simpl in Hr. subst rd.
  destruct r as [d fs sent]. simpl in *. subst fs.
  run_mgr. rewrite Hb. simpl. rewrite Hn. simpl. rewrite Hl. simpl.
  eexists. repeat split.
Qed.

(** X2.  An absent outcome: when the lookups in both tiers find nothing (or
    the tier is absent) and no compute function is given, [get] returns
    [None]; it counts the access and nothing else, prints nothing, and
    leaves the contents of both tiers as they were. *)
Theorem get_absent (metadata_id property_name : string) (m : Manager) (w : W) :
  let key := _generate_cache_key metadata_id property_name in
  l1_misses m key -> l2_misses m key ->
  exists m',
    get metadata_id property_name (@None (@callable Value W)) (m, w) = (Ok None, (m', w)) /\
    stats m' = bump Total_accesses (stats m) /\
    printed m' = printed m /\
    option_map r_data (redis m') = option_map r_data (redis m) /\
    option_map pg_table (postgres m') = option_map pg_table (postgres m) /\
    option_map pg_committed (postgres m') = option_map pg_committed (postgres m).
Proof.
  intros key H1 H2.
  unfold get. change (_generate_cache_key metadata_id property_name) with key. clearbody key.
  destruct m as [rd pg cap ttl st pr].
  unfold l1_misses, l2_misses, if_present in *. simpl in *.
  destruct rd as [[d fs sent] |], pg as [[t c rows pfs psent] |]; simpl in *.
  all: repeat match goal with
              | Hm : _ = healthy /\ _ |- _ => let L := fresh "L" in destruct Hm as [-> L]
              end.
  all: run_mgr;
       repeat (match goal with L : _ !! _ = None |- _ => rewrite L end; simpl).
  all: eexists; repeat split.
Qed.

(** X3.  A compute function that raises: when both lookups find nothing and
    the compute function raises [e], [get] raises [e] in the world the
    function left.  The miss has been counted, nothing is printed, and
    nothing has been written to either tier. *)
Theorem get_compute_raises (metadata_id property_name : string) (f : @callable Value W)
    (m : Manager) (w w' : W) (e : exn) :
  let key := _generate_cache_key metadata_id property_name in
  l1_misses m key -> l2_misses m key ->
  f w = (Raise e, w') ->
  exists m',
    get metadata_id property_name (Some f) (m, w) = (Raise e, (m', w')) /\
    stats m' = bump Misses (bump Total_accesses (stats m)) /\
    printed m' = printed m /\
    option_map r_data (redis m') = option_map r_data (redis m) /\
    option_map pg_table (postgres m') = option_map pg_table (postgres m) /\
    option_map pg_committed (postgres m') = option_map pg_committed (postgres m).
Proof.
  intros key H1 H2 Hf.
  unfold get. change (_generate_cache_key metadata_id property_name) with key. clearbody key.
  destruct m as [rd pg cap ttl st pr].
  unfold l1_misses, l2_misses, if_present in *. simpl in *.
  destruct rd as [[d fs sent] |], pg as [[t c rows pfs psent] |]; simpl in *.
  all: repeat match goal with
              | Hm : _ = healthy /\ _ |- _ => let L := fresh "L" in destruct Hm as [-> L]
              end.
  all: run_mgr;
       repeat (first [ match goal with L : _ !! _ = None |- _ => rewrite L end
                     | rewrite Hf ]; simpl).
  all: eexists; repeat split.
Qed.

End MoreGetFacts.

Lemma get_l1_hit_witness :
  exists m',
    get "e1" "histogram" (Some (returning 7)) (hot, 0%nat) = (Ok (Some 42), (m', 0%nat)) /\
    stats m' = bump L1_hits (bump Total_accesses (stats hot)) /\
    redis m' = Some (MkRedis (r_data hot_redis) healthy
                       (r_sent hot_redis ++ [GET (_generate_cache_key "e1" "histogram")])) /\
    postgres m' = postgres hot /\
    printed m' = printed hot.
Proof.
  apply (get_l1_hit "e1" "histogram" (Some (returning 7)) hot 0%nat hot_redis "42" 42);
    reflexivity.
Defined.

Lemma get_absent_witness :
  exists m',
    get "e1" "histogram" (@None (@callable Z nat)) (fresh, 0%nat) = (Ok None, (m', 0%nat)) /\
    stats m' = bump Total_accesses (stats fresh) /\
    printed m' = printed fresh /\
    option_map r_data (redis m') = option_map r_data (redis fresh) /\
    option_map pg_table (postgres m') = option_map pg_table (postgres fresh) /\
    option_map pg_committed (postgres m') = option_map pg_committed (postgres fresh).
Proof.
  apply (get_absent (Value := Z) "e1" "histogram" fresh 0%nat); simpl; split; reflexivity.
Defined.

Lemma get_compute_raises_witness :
  exists m',
    get "e1" "histogram" (Some failing) (fresh, 0%nat) =
      (Raise (ComputeError "no image"), (m', 1%nat)) /\
    stats m' = bump Misses (bump Total_accesses (stats fresh)) /\
    printed m' = printed fresh /\
    option_map r_data (redis m') = option_map r_data (redis fresh) /\
    option_map pg_table (postgres m') = option_map pg_table (postgres fresh) /\
    option_map pg_committed (postgres m') = option_map pg_committed (postgres fresh).
Proof.
  apply (get_compute_raises "e1" "histogram" failing fresh 0%nat 1%nat (ComputeError "no image")).
  - simpl. split; reflexivity.
  - simpl. split; reflexivity.
  - reflexivity.
Defined.

Section ComposedFacts.

Context {Value W : Type} `{Json Value}.

(** The manager that a computed miss leaves on healthy tiers. *)
Lemma get_miss_state (metadata_id property_name : string) (f : @callable Value W)
    (m : Manager) (w w' : W) (v : Value) (s : string) :
  let key := _generate_cache_key metadata_id property_name in
  l1_misses m key -> l2_misses m key ->
  f w = (Ok v, w') -> json_dumps v = Some s ->
  exists m',
    get metadata_id property_name (Some f) (m, w) = (Ok (Some v), (m', w')) /\
    tiers_healthy m' /\
    option_map r_data (redis m') = option_map (fun r => <[key := s]> (r_data r)) (redis m) /\
    option_map pg_table (postgres m') =
      option_map (fun p => <[key := Row metadata_id property_name s]> (pg_table p)) (postgres m) /\
    option_map pg_committed (postgres m') = option_map pg_table (postgres m') /\
    l1_hits (stats m') = l1_hits (stats m) /\
    l2_hits (stats m') = l2_hits (stats m) /\
    misses (stats m') = misses (stats m) + 1 /\
    evictions (stats m') = evictions (stats m) +
      match redis m with
      | Some r => if Z.of_nat (size (<[key := s]> (r_data r))) >? l1_capacity m then 1 else 0
      | None => 0
      end /\
    no_new_del m m'.
Proof.
  intros key H1 H2 Hf Hd.
  unfold get. change (_generate_cache_key metadata_id property_name) with key. clearbody key.
  destruct m as [rd pg cap ttl st pr].
  unfold l1_misses, l2_misses, if_present, tiers_healthy, no_new_del in *. simpl in *.
  destruct rd as [[d fs sent] |], pg as [[t c rows pfs psent] |]; simpl in *.
  all: repeat match goal with
              | Hm : _ = healthy /\ _ |- _ => let L := fresh "L" in destruct Hm as [-> L]
              end.
  all: run_mgr;
       repeat (first [ match goal with L : _ !! _ = None |- _ => rewrite L end
                     | rewrite Hf | rewrite Hd ]; simpl).
  all: try (destruct ttl as [t0 |]; [destruct (t0 =? 0) |]; simpl).
  all: try (match goal with
            | |- context [ if ?a >? ?b then _ else _ ] => destruct (a >? b) eqn:Hcap; simpl
            end).
  all: unfold upsert;
       repeat (match goal with L : _ !! _ = None |- _ => rewrite L end; simpl).
  all: eexists; (split; [reflexivity |]); simpl.
  all: repeat first [ reflexivity | exact I | lia | split ].
  all: intros k Hin; rewrite !List.in_app_iff in Hin; simpl in Hin; intuition discriminate.
Qed.

(** X4.  The eviction counter on a computed miss.  With a healthy L1 that
    lacks the key, [evictions] grows by one exactly when L1 already held
    [l1_capacity] entries or more.  Nothing is evicted by the manager:
    every entry that L1 held is still there, and no [DEL] was sent. *)
Theorem get_miss_counts_eviction (metadata_id property_name : string) (f : @callable Value W)
    (m : Manager) (w w' : W) (v : Value) (s : string) (r : Redis) :
  let key := _generate_cache_key metadata_id property_name in
  redis m = Some r -> r_faults r = healthy -> r_data r !! key = None ->
  l2_misses m key ->
  f w = (Ok v, w') -> json_dumps v = Some s ->
  exists m' r',
    get metadata_id property_name (Some f) (m, w) = (Ok (Some v), (m', w')) /\
    redis m' = Some r' /\
    evictions (stats m') = evictions (stats m) +
      (if Z.of_nat (size (r_data r)) >=? l1_capacity m then 1 else 0) /\
    (forall k b, r_data r !! k = Some b -> r_data r' !! k = Some b) /\
    (forall k, List.In (DEL k) (r_sent r') -> List.In (DEL k) (r_sent r)).
Proof.
  intros key Hr Hf Hk H2 Hfw Hd.
  assert (H1 : l1_misses m key) by (unfold l1_misses, if_present; rewrite Hr; auto).
  destruct (get_miss_state metadata_id property_name f m w w' v s H1 H2 Hfw Hd)
    as (m' & E & _ & Hdata & _ & _ & _ & _ & _ & Hev & Hdel).
  fold key in Hdata, Hev. rewrite Hr in Hdata, Hev. simpl in Hdata.
  unfold no_new_del in Hdel. rewrite Hr in Hdel.
  destruct (redis m') as [r' |] eqn:Hr'; [| discriminate].
  injection Hdata as Hdata.
  exists m', r'. split; [exact E |]. split; [exact Hr' |]. split; [| split].
  - rewrite Hev. rewrite (map_size_insert_None _ _ _ Hk).
    destruct (Z.gtb_spec (Z.of_nat (S (size (r_data r)))) (l1_capacity m));
      destruct (Z.geb_spec (Z.of_nat (size (r_data r))) (l1_capacity m)); lia.
  - intros k b Hkb. rewrite Hdata.
    destruct (decide (key = k)) as [<- | Hne]; [congruence |].
    now rewrite lookup_insert_ne.
  - exact Hdel.
Qed.

(** The manager that a hit in L1 leaves. *)
Lemma l1_hit_state (key : string) (metadata_id property_name : string)
    (compute_func : option (@callable Value W)) (m : Manager) (w : W)
    (r : Redis) (b : string) (v : Value) :
  key = _generate_cache_key metadata_id property_name ->
  redis m = Some r -> r_faults r = healthy ->
  r_data r !! key = Some b -> nonempty b = true -> json_loads b = Some v ->
  exists m',
    get metadata_id property_name compute_func (m, w) = (Ok (Some v), (m', w)) /\
    stats m' = bump L1_hits (bump Total_accesses (stats m)).
Proof.
  intros -> Hr Hf Hb Hn Hl.
  unfold get. generalize dependent (_generate_cache_key metadata_id property_name). intros key Hb.
  destruct m as [rd pg cap ttl st pr]. simpl in Hr. subst rd.
  destruct r as [d fs sent]. simpl in *. subst fs.
  run_mgr. rewrite Hb. simpl. rewrite Hn. simpl. rewrite Hl. simpl.
  eexists. repeat split.
Qed.

(** X5.  Memoization through the manager.  On healthy tiers that lack the key,
    with an L1, a first [get] computes [v]; a second [get] of the same
    pair, with any compute function or none, returns [v] from L1 without
    invoking it.  The two calls count one miss and one L1 hit.  The
    serialization of [v] is assumed non-empty and read back as [v]. *)
Theorem get_twice_hits_l1 (metadata_id property_name : string) (f : @callable Value W)
    (again : option (@callable Value W)) (m : Manager) (w w' : W) (v : Value) (s : string)
    (r : Redis) :
  let key := _generate_cache_key metadata_id property_name in
  redis m = Some r -> l1_misses m key -> l2_misses m key ->
  f w = (Ok v, w') -> json_dumps v = Some s ->
  nonempty s = true -> json_loads s = Some v ->
  exists m1 m2,
    get metadata_id property_name (Some f) (m, w) = (Ok (Some v), (m1, w')) /\
    get metadata_id property_name again (m1, w') = (Ok (Some v), (m2, w')) /\
    misses (stats m2) = misses (stats m) + 1 /\
    l1_hits (stats m2) = l1_hits (stats m) + 1 /\
    l2_hits (stats m2) = l2_hits (stats m).
Proof.
  intros key Hr H1 H2 Hf Hd Hn Hl.
  destruct (get_miss_state metadata_id property_name f m w w' v s H1 H2 Hf Hd)
    as (m1 & E1 & [Hh _] & Hdata & _ & _ & Hc1 & Hc2 & Hc3 & _).
  fold key in Hdata. rewrite Hr in Hdata. simpl in Hdata.
  destruct (redis m1) as [r1 |] eqn:Hr1; [| discriminate].
  injection Hdata as Hdata. simpl in Hh.
  destruct (l1_hit_state key metadata_id property_name again m1 w' r1 s v eq_refl Hr1 Hh)
    as (m2 & E2 & Hs2); [rewrite Hdata; apply lookup_insert_eq | exact Hn | exact Hl |].
  exists m1, m2. split; [exact E1 |]. split; [exact E2 |].
  rewrite Hs2. simpl. repeat split; lia.
Qed.

(** X6.  Invalidation is followed by a recomputation.  On healthy tiers,
    whatever they hold, after [invalidate] of a pair (non-empty property
    name) the next [get] of that pair invokes the compute function and
    returns what it computes: no stale hit. *)
Theorem invalidate_then_get_recomputes (metadata_id property_name : string)
    (f : @callable Value W) (m : Manager) (w w' : W) (v : Value) (s : string) :
  tiers_healthy m -> nonempty property_name = true ->
  f w = (Ok v, w') -> json_dumps v = Some s ->
  exists m1 m2,
    invalidate metadata_id (Some property_name) (m, w) = (Ok tt, (m1, w)) /\
    get metadata_id property_name (Some f) (m1, w) = (Ok (Some v), (m2, w')) /\
    misses (stats m2) = misses (stats m) + 1 /\
    l1_hits (stats m2) = l1_hits (stats m) /\
    l2_hits (stats m2) = l2_hits (stats m).
Proof.
  intros Hm Hp Hf Hd.
  set (key := _generate_cache_key metadata_id property_name).
  pose proof (_invalidate_key_healthy (W := W) key m w Hm) as Ei.
  pose proof (after_invalidate_healthy key m Hm) as [Hh1 Hh2].
  pose proof (after_invalidate_lacks key m) as [Hl1 Hl2].
  assert (M1 : l1_misses (after_invalidate m key) key).
  { unfold l1_misses, l1_lacks, if_present in *.
    destruct (redis (after_invalidate m key)); auto. }
  assert (M2 : l2_misses (after_invalidate m key) key).
  { unfold l2_misses, l2_lacks, if_present in *.
    destruct (postgres (after_invalidate m key)); [| exact I]. split; [exact Hh2 | apply Hl2]. }
  destruct (get_miss_state metadata_id property_name f _ w w' v s M1 M2 Hf Hd)
    as (m2 & E2 & _ & _ & _ & _ & Hc1 & Hc2 & Hc3 & _).
  exists (after_invalidate m key), m2. split; [| split; [exact E2 |]].
  - unfold invalidate. rewrite Hp. exact Ei.
  - simpl in Hc1, Hc2, Hc3. repeat split; assumption.
Qed.

End ComposedFacts.

Lemma get_miss_counts_eviction_witness :
  exists m' r',
    get "e1" "texture_metrics" (Some (returning 7)) (full, 0%nat) = (Ok (Some 7), (m', 1%nat)) /\
    redis m' = Some r' /\
    evictions (stats m') = evictions (stats full) +
      (if Z.of_nat (size (r_data hot_redis)) >=? l1_capacity full then 1 else 0) /\
    (forall k b, r_data hot_redis !! k = Some b -> r_data r' !! k = Some b) /\
    (forall k, List.In (DEL k) (r_sent r') -> List.In (DEL k) (r_sent hot_redis)).
Proof.
  apply (get_miss_counts_eviction "e1" "texture_metrics" (returning 7) full 0%nat 1%nat 7 "7"
           hot_redis).
  - reflexivity.
  - reflexivity.
  - vm_compute. reflexivity.
  - simpl. split; reflexivity.
  - reflexivity.
  - reflexivity.
Defined.

Lemma get_twice_hits_l1_witness :
  exists m1 m2,
    get "e1" "histogram" (Some (returning 42)) (fresh, 0%nat) = (Ok (Some 42), (m1, 1%nat)) /\
    get "e1" "histogram" (Some (returning 7)) (m1, 1%nat) = (Ok (Some 42), (m2, 1%nat)) /\
    misses (stats m2) = misses (stats fresh) + 1 /\
    l1_hits (stats m2) = l1_hits (stats fresh) + 1 /\
    l2_hits (stats m2) = l2_hits (stats fresh).
Proof.
  apply (get_twice_hits_l1 "e1" "histogram" (returning 42) (Some (returning 7)) fresh
           0%nat 1%nat 42 "42" empty_redis).
  - reflexivity.
  - simpl. split; reflexivity.
  - simpl. split; reflexivity.
  - reflexivity.
  - reflexivity.
  - reflexivity.
  - reflexivity.
Defined.

Lemma invalidate_then_get_recomputes_witness :
  exists m1 m2,
    invalidate "e1" (Some "histogram") (populated, 1%nat) = (Ok tt, (m1, 1%nat)) /\
    get "e1" "histogram" (Some (returning 7)) (m1, 1%nat) = (Ok (Some 7), (m2, 2%nat)) /\
    misses (stats m2) = misses (stats populated) + 1 /\
    l1_hits (stats m2) = l1_hits (stats populated) /\
    l2_hits (stats m2) = l2_hits (stats populated).
Proof.
  apply (invalidate_then_get_recomputes "e1" "histogram" (returning 7) populated
           1%nat 2%nat 7 "7").
  - vm_compute. split; reflexivity.
  - reflexivity.
  - reflexivity.
  - reflexivity.
Defined.

(** * The stages of [get] *)

(* Case analysis on every scrutinee of the goal, innermost first. *)
Ltac split_innermost :=
  match goal with
  | |- context [ match ?x with _ => _ end ] =>
      lazymatch x with
      | context [ match _ with _ => _ end ] => fail
      | _ => destruct x eqn:?
      end
  end.

Ltac crush := repeat (simpl; split_innermost); simpl.

Section StageFacts.

Context {Value W : Type} `{Json Value}.

Lemma bind_raise {S A B : Type} (c : M S A) (k : A -> M S B) (s : S) (e : exn) (s1 : S) :
  c s = (Raise e, s1) -> (c ≫= k) s = (Raise e, s1).
Proof. intros E. unfold mbind, M_bind. now rewrite E. Qed.

Lemma incr_state (c : counter) (m : Manager) (w : W) :
  incr c (m, w) = (Ok tt, (set_stats (bump c (stats m)) m, w)).
Proof. reflexivity. Qed.

Lemma call_state (f : @callable Value W) (m : Manager) (w w' : W) (r : result Value) :
  f w = (r, w') -> call f (m, w) = (r, (m, w')).
Proof. intros E. unfold call, zoom. simpl. now rewrite E. Qed.


(** The L1 stage when the [GET] raises. *)
Lemma get_l1_fault_state (key : string) (m : Manager) (w : W) (r : Redis) (rest : faults) :
  redis m = Some r -> next_fault (r_faults r) = (true, rest) ->
  get_l1 (Value := Value) key (m, w) =
    (Ok None,
     (MkManager (Some (MkRedis (r_data r) rest (r_sent r ++ [GET key])))
        (postgres m) (l1_capacity m) (l1_ttl m) (stats m)
        (printed m ++ [L1_cache_error (ConnectionError "redis")]), w)).
Proof.
  destruct m as [rd pg cap ttl st pr]. simpl. intros -> Hn.
  run_mgr. rewrite Hn. reflexivity.
Qed.




Ltac grown :=
  let c := fresh "c" in
  intros c; destruct c; simpl; lia.

(* Bounds on a counter from the [grew] facts of the stages run. *)
Ltac counted :=
  let c := fresh "c" in
  intros c;
  repeat match goal with
         | G : grew _ _ _ |- _ => specialize (G c)
         end;
  destruct c; simpl in *; lia.

Ltac counted_one c :=
  repeat match goal with
         | G : grew _ _ _ |- _ => specialize (G c)
         end;
  simpl in *; lia.

Lemma grew_bump (c : counter) (st : Stats) : grew [c] st (bump c st).
Proof. destruct c; grown. Qed.

(** The effects of each stage of [get], in every state. *)
Lemma get_l1_effects (key : string) (s : @St W) :
  exists hit m',
    get_l1 (Value := Value) key s = (Ok hit, (m', snd s)) /\
    has_l2 m' = has_l2 (fst s) /\
    grew [L1_hits] (stats (fst s)) (stats m').
Proof.
  destruct s as [[rd pg cap ttl st pr] w].
  run_mgr. crush.
  all: do 2 eexists; (split; [reflexivity |]); split; [reflexivity | grown].
Qed.

Lemma _set_l1_effects (key : string) (v : Value) (s : @St W) :
  exists m',
    _set_l1 key v s = (Ok tt, (m', snd s)) /\
    has_l2 m' = has_l2 (fst s) /\
    grew [Evictions] (stats (fst s)) (stats m') /\
    exists more, printed m' = printed (fst s) ++ more.
Proof.
  destruct s as [[rd pg cap ttl st pr] w].
  run_mgr. crush.
  all: eexists; (split; [reflexivity |]); split; [reflexivity | split; [grown |]].
  all: simpl; first [ now exists [] ; rewrite List.app_nil_r | eexists; reflexivity ].
Qed.

Lemma get_l2_effects (key : string) (s : @St W) :
  exists hit m',
    get_l2 (Value := Value) key s = (Ok hit, (m', snd s)) /\
    has_l2 m' = has_l2 (fst s) /\
    grew (match hit with Some _ => [L2_hits; Evictions] | None => [L2_hits] end)
         (stats (fst s)) (stats m').
Proof.
  destruct s as [[rd pg cap ttl st pr] w].
  run_mgr. crush.
  all: do 2 eexists; (split; [reflexivity |]); split; [reflexivity | grown].
Qed.

Lemma _set_l2_effects (key metadata_id property_name : string) (v : Value) (s : @St W) :
  exists r m',
    _set_l2 key metadata_id property_name v s = (r, (m', snd s)) /\
    grew [] (stats (fst s)) (stats m') /\
    (r = Ok tt \/ (r = Raise (ConnectionError "postgres") /\ has_l2 (fst s) = true)).
Proof.
  destruct s as [[rd pg cap ttl st pr] w].
  run_mgr. crush.
  all: do 2 eexists; (split; [reflexivity |]); split; [grown | auto].
Qed.

(** The L2 stage on a hit: three healthy calls, a row that decodes, and
    the promotion to L1, whatever L1 does. *)
Lemma get_l2_hit_state (key : string) (m : Manager) (w : W) (p : Postgres) (rw : row)
    (v : Value) :
  postgres m = Some p -> pg_faults p = healthy -> pg_table p !! key = Some rw ->
  json_loads (row_value rw) = Some v ->
  get_l2 key (m, w) =
    (Ok (Some v),
     snd (_set_l1 key v
            (set_stats (bump L2_hits (stats m))
               (set_postgres (after_select key [] healthy p) m), w))).
Proof.
  destruct m as [rd pg cap ttl st pr], p as [t c rows pfs psent]. simpl.
  intros -> -> L Hl.
  match goal with
  | |- _ = (_, snd (_set_l1 key v ?s2)) =>
      destruct (_set_l1_effects key v s2) as (m' & E & _); rewrite E
  end.
  unfold get_l2, loads, incr, on_postgres, self, zoom, gets, modify, try_except,
    of_option, mbind, M_bind, mret, M_ret,
    pg_cursor, pg_execute, pg_fetchone, pg_call.
  simpl. rewrite L. simpl. rewrite Hl. simpl.
  match goal with
  | |- context [ _set_l1 key v ?s1 ] =>
      assert (E1 : _set_l1 key v s1 = (Ok tt, (m', w))) by exact E; rewrite E1
  end.
  reflexivity.
Qed.


(** X8.  A transient fault of L1 falls through to L2.  If the [GET] on L1
    raises and a healthy L2 holds the key under bytes that decode to
    [v], [get] returns [v] without invoking the compute function; it
    counts an L2 hit and no L1 hit, and prints the L1 error first. *)
Theorem get_l1_fault_falls_through (metadata_id property_name : string)
    (compute_func : option (@callable Value W)) (m : Manager) (w : W)
    (r : Redis) (rest : faults) (p : Postgres) (rw : row) (v : Value) :
  let key := _generate_cache_key metadata_id property_name in
  redis m = Some r -> next_fault (r_faults r) = (true, rest) ->
  postgres m = Some p -> pg_faults p = healthy -> pg_table p !! key = Some rw ->
  json_loads (row_value rw) = Some v ->
  exists m' more,
    get metadata_id property_name compute_func (m, w) = (Ok (Some v), (m', w)) /\
    l1_hits (stats m') = l1_hits (stats m) /\
    l2_hits (stats m') = l2_hits (stats m) + 1 /\
    misses (stats m') = misses (stats m) /\
    printed m' = printed m ++ L1_cache_error (ConnectionError "redis") :: more.
Proof.
  intros key Hr Hnf Hp Hpf Hk Hl.
  unfold get. change (_generate_cache_key metadata_id property_name) with key. clearbody key.
  rewrite (bind_ok _ _ _ _ _ (incr_state Total_accesses m w)).
  set (m0 := set_stats (bump Total_accesses (stats m)) m).
  assert (Hr0 : redis m0 = Some r) by (destruct m; exact Hr).
  rewrite (bind_ok _ _ _ _ _ (get_l1_fault_state key m0 w r rest Hr0 Hnf)).
  set (m1 := MkManager (Some (MkRedis (r_data r) rest (r_sent r ++ [GET key])))
               (postgres m0) (l1_capacity m0) (l1_ttl m0) (stats m0)
               (printed m0 ++ [L1_cache_error (ConnectionError "redis")])).
  assert (Hp1 : postgres m1 = Some p) by (destruct m; exact Hp).
  rewrite (bind_ok _ _ _ _ _ (get_l2_hit_state key m1 w p rw v Hp1 Hpf Hk Hl)).
  match goal with |- context [ _set_l1 key v ?s ] =>
    destruct (_set_l1_effects key v s) as (m' & E & _ & Hg & more & Hpr); rewrite E
  end.
  exists m', more. split; [reflexivity |].
  simpl in Hg, Hpr.
  pose proof (Hg L1_hits) as G1. pose proof (Hg L2_hits) as G2. pose proof (Hg Misses) as G3.
  subst m1 m0. simpl in G1, G2, G3, Hpr |- *. rewrite Hpr.
  repeat split; try lia. now rewrite <- List.app_assoc.
Qed.

(** What every run of [get] does, stage by stage: how the counters move,
    and where an exception can come from. *)
Lemma get_stages (metadata_id property_name : string)
    (compute_func : option (@callable Value W)) (m : Manager) (w : W) :
  exists r m' w',
    get metadata_id property_name compute_func (m, w) = (r, (m', w')) /\
    (forall c, reading c (stats m) <= reading c (stats m') <= reading c (stats m) + 1) /\
    match r with
    | Ok _ => True
    | Raise e =>
        exists f, compute_func = Some f /\ w' = snd (f w) /\
          misses (stats m') = misses (stats m) + 1 /\
          (fst (f w) = Raise e \/
           (e = ConnectionError "postgres" /\ has_l2 m = true /\ exists v, fst (f w) = Ok v))
    end.
Proof.
  unfold get. generalize (_generate_cache_key metadata_id property_name); intros key.
  rewrite (bind_ok _ _ _ _ _ (incr_state Total_accesses m w)).
  pose proof (grew_bump Total_accesses (stats m)) as G0.
  set (m0 := set_stats (bump Total_accesses (stats m)) m) in *.
  change (bump Total_accesses (stats m)) with (stats m0) in G0.
  assert (L0 : has_l2 m0 = has_l2 m) by reflexivity.
  clearbody m0.
  destruct (get_l1_effects key (m0, w)) as (hit1 & m1 & E1 & L1 & G1). simpl in E1, L1, G1.
  rewrite (bind_ok _ _ _ _ _ E1).
  destruct hit1 as [v1 |].
  { do 3 eexists. split; [reflexivity |]. split; [counted | exact I]. }
  destruct (get_l2_effects key (m1, w)) as (hit2 & m2 & E2 & L2 & G2). simpl in E2, L2, G2.
  rewrite (bind_ok _ _ _ _ _ E2).
  destruct hit2 as [v2 |].
  { do 3 eexists. split; [reflexivity |]. split; [counted | exact I]. }
  destruct compute_func as [f |].
  2: { do 3 eexists. split; [reflexivity |]. split; [counted | exact I]. }
  rewrite (bind_ok _ _ _ _ _ (incr_state Misses m2 w)).
  pose proof (grew_bump Misses (stats m2)) as G3.
  set (m3 := set_stats (bump Misses (stats m2)) m2) in *.
  change (bump Misses (stats m2)) with (stats m3) in G3.
  assert (L3 : has_l2 m3 = has_l2 m2) by reflexivity.
  assert (X3 : misses (stats m3) = misses (stats m2) + 1) by reflexivity.
  clearbody m3.
  destruct (f w) as [[v | e] w1] eqn:Hf.
  - rewrite (bind_ok _ _ _ _ _ (call_state f m3 w w1 _ Hf)).
    destruct (_set_l1_effects key v (m3, w1)) as (m4 & E4 & L4 & G4 & _).
    simpl in E4, L4, G4. rewrite (bind_ok _ _ _ _ _ E4).
    destruct (_set_l2_effects key metadata_id property_name v (m4, w1))
      as (r5 & m5 & E5 & G5 & [-> | [-> L5]]); simpl in E5, G5.
    + rewrite (bind_ok _ _ _ _ _ E5).
      do 3 eexists. split; [reflexivity |]. split; [counted | exact I].
    + rewrite (bind_raise _ _ _ _ _ E5).
      do 3 eexists. split; [reflexivity |]. split; [counted |].
      exists f. split; [reflexivity |]. rewrite Hf. simpl in L5 |- *.
      split; [reflexivity |]. split; [counted_one Misses |].
      right. split; [reflexivity |]. split; [congruence | now exists v].
  - rewrite (bind_raise _ _ _ _ _ (call_state f m3 w w1 _ Hf)).
    do 3 eexists. split; [reflexivity |]. split; [counted |].
    exists f. split; [reflexivity |]. rewrite Hf. simpl.
    split; [reflexivity |]. split; [counted_one Misses |]. now left.
Qed.

(** X9.  The counters over one call.  Whatever the tiers hold or do, and
    whether [get] returns or raises, one call adds exactly one to
    [total_accesses] and at most one to each of [l1_hits], [l2_hits],
    [misses] and [evictions]; no counter ever decreases. *)
Theorem get_counters_grow (metadata_id property_name : string)
    (compute_func : option (@callable Value W)) (s : @St W) (c : counter) :
  let before := stats (fst s) in
  let after := stats (fst (snd (get metadata_id property_name compute_func s))) in
  reading Total_accesses after = reading Total_accesses before + 1 /\
  reading c before <= reading c after <= reading c before + 1.
Proof.
  intros before after. subst before after. split.
  - apply get_counts_every_access.
  - destruct s as [m w].
    destruct (get_stages metadata_id property_name compute_func m w)
      as (r & m' & w' & E & G & _).
    rewrite E. apply G.
Qed.

(** X10.  Where an exception of [get] comes from.  If [get] raises, a compute
    function was given, it was invoked, the miss was counted, and the
    world is the one the function left; and either the function raised
    that exception, or it returned, the manager has an L2, and the
    exception is the connection error of L2 (raised by the [rollback]
    after a failed write). *)
Theorem get_raises_what (metadata_id property_name : string)
    (compute_func : option (@callable Value W)) (m m' : Manager) (w w' : W) (e : exn) :
  get metadata_id property_name compute_func (m, w) = (Raise e, (m', w')) ->
  exists f, compute_func = Some f /\ w' = snd (f w) /\
    misses (stats m') = misses (stats m) + 1 /\
    (fst (f w) = Raise e \/
     (e = ConnectionError "postgres" /\ has_l2 m = true /\ exists v, fst (f w) = Ok v)).
Proof.
  intros E.
  destruct (get_stages metadata_id property_name compute_func m w)
    as (r & m1 & w1 & E1 & _ & Hr).
  rewrite E in E1. injection E1 as <- <- <-. exact Hr.
Qed.

End StageFacts.


Lemma get_l1_fault_falls_through_witness :
  exists m' more,
    get "e1" "histogram" (Some (returning 7)) (stuttering, 0%nat) = (Ok (Some 42), (m', 0%nat)) /\
    l1_hits (stats m') = l1_hits (stats stuttering) /\
    l2_hits (stats m') = l2_hits (stats stuttering) + 1 /\
    misses (stats m') = misses (stats stuttering) /\
    printed m' = printed stuttering ++ L1_cache_error (ConnectionError "redis") :: more.
Proof.
  apply (get_l1_fault_falls_through "e1" "histogram" (Some (returning 7)) stuttering 0%nat
           stuttering_redis healthy cold_postgres cold_row 42);
    reflexivity.
Defined.

Lemma get_raises_what_witness :
  exists f, Some (returning 42) = Some f /\ 1%nat = snd (f 0%nat) /\
    misses (stats (manager_after (get "e1" "histogram" (Some (returning 42)) (closed_l2, 0%nat)))) =
      misses (stats closed_l2) + 1 /\
    (fst (f 0%nat) = Raise (ConnectionError "postgres") \/
     (ConnectionError "postgres" = ConnectionError "postgres" /\ has_l2 closed_l2 = true /\
      exists v, fst (f 0%nat) = Ok v)).
Proof.
  apply (get_raises_what "e1" "histogram" (Some (returning 42)) closed_l2
           (manager_after (get "e1" "histogram" (Some (returning 42)) (closed_l2, 0%nat)))
           0%nat 1%nat (ConnectionError "postgres")).
  vm_compute. reflexivity.
Defined.

(** * Further properties of [invalidate] *)

Section MoreInvalidateFacts.

Context {Value W : Type} `{Json Value}.

(** What one [_invalidate_key] does, in every state. *)
Lemma _invalidate_key_effects (key : string) (s : @St W) :
  exists m',
    _invalidate_key key s = (Ok tt, (m', snd s)) /\
    stats m' = stats (fst s) /\
    has_l2 m' = has_l2 (fst s) /\
    (forall k, k <> key ->
       l1_lookup m' k = l1_lookup (fst s) k /\ l2_lookup m' k = l2_lookup (fst s) k).
Proof.
  destruct s as [[rd pg cap ttl st pr] w].
  run_mgr. crush.
  all: eexists; (split; [reflexivity |]); split; [reflexivity |]; split; [reflexivity |].
  all: intros k Hk; unfold l1_lookup, l2_lookup; simpl.
  all: rewrite ?lookup_delete_ne by congruence; split; reflexivity.
Qed.

(** The loop of [invalidate] touches the listed keys only. *)
Lemma for_each_invalidate_effects (keys : list string) (s : @St W) :
  exists m',
    for_each keys _invalidate_key s = (Ok tt, (m', snd s)) /\
    stats m' = stats (fst s) /\
    (forall k, k ∉ keys ->
       l1_lookup m' k = l1_lookup (fst s) k /\ l2_lookup m' k = l2_lookup (fst s) k).
Proof.
  revert s. induction keys as [| key keys IH]; intros s.
  - exists (fst s). destruct s. simpl. repeat split.
  - destruct (_invalidate_key_effects key s) as (m1 & E1 & S1 & _ & K1).
    destruct (IH (m1, snd s)) as (m2 & E2 & S2 & K2). simpl in E2, S2, K2.
    exists m2. split; [| split].
    + simpl. rewrite (bind_ok _ _ _ _ _ E1). exact E2.
    + congruence.
    + intros k Hk. apply not_elem_of_cons in Hk as [Hne Hk].
      destruct (K1 k Hne) as [A1 B1], (K2 k Hk) as [A2 B2]. split; congruence.
Qed.

(** X11.  [invalidate] touches its targets only.  From every state, whatever
    the tiers do, a key that the call does not target has after it the
    entry in L1 and the row in L2 that it had before; and [invalidate]
    changes no counter. *)
Theorem invalidate_leaves_others (metadata_id : string) (property_name : option string)
    (m : Manager) (w : W) (k : string) :
  untargeted metadata_id property_name m k ->
  let m' := fst (snd (invalidate metadata_id property_name (m, w))) in
  l1_lookup m' k = l1_lookup m k /\ l2_lookup m' k = l2_lookup m k /\ stats m' = stats m.
Proof.
  intros Hk m'. subst m'. unfold untargeted in Hk. unfold invalidate.
  destruct (match property_name with
            | Some p => if nonempty p then Some p else None
            | None => None
            end) as [p |] eqn:Hsel.
  - assert (Hne : k <> _generate_cache_key metadata_id p).
    { destruct property_name as [p0 |]; [| discriminate].
      destruct (nonempty p0); [| discriminate]. now injection Hsel as <-. }
    destruct (_invalidate_key_effects (_generate_cache_key metadata_id p) (m, w))
      as (m1 & E1 & S1 & _ & K1).
    rewrite E1. simpl. destruct (K1 k Hne). auto.
  - assert (Hel : forall rw, l2_lookup m k = Some rw -> row_metadata_id rw <> metadata_id).
    { destruct property_name as [p0 |]; [| exact Hk].
      destruct (nonempty p0); [discriminate | exact Hk]. }
    clear Hk Hsel.
    destruct m as [rd [[t c rows pfs psent] |] cap ttl st pr]; [| simpl; auto].
    unfold l2_lookup in Hel. simpl in Hel.
    assert (Hout : k ∉ keys_of metadata_id t).
    { intros Hin. apply keys_of_spec in Hin as (rw & Hl & Hm). exact (Hel rw Hl Hm). }
    unfold mbind, M_bind, gets, try_except, on_postgres, self, zoom, print, modify,
      pg_cursor, pg_execute, pg_fetchall, pg_call.
    simpl.
    destruct (next_fault pfs) as [[] fs1]; simpl; [auto |].
    destruct (next_fault fs1) as [[] fs2]; simpl; [auto |].
    destruct (next_fault fs2) as [[] fs3]; simpl; [auto |].
    match goal with
    | |- context [ for_each ?ks _ ?s0 ] =>
        destruct (for_each_invalidate_effects ks s0) as (m1 & E1 & S1 & K1); rewrite E1
    end.
    simpl. destruct (K1 k Hout). auto.
Qed.


(** X13.  When the listing of an entity's keys fails, nothing is invalidated.
    If one of the three calls that list the keys in L2 raises,
    [invalidate] of the whole entity sends nothing to L1, leaves the
    table of L2 as it was, and prints one line. *)
Theorem invalidate_entity_listing_fails (metadata_id : string) (m : Manager) (w : W)
    (p : Postgres) (listing_faults : list bool) (rest : list bool) (after : bool) :
  postgres m = Some p ->
  pg_faults p = Faults (listing_faults ++ rest) after ->
  List.In listing_faults [[true]; [false; true]; [false; false; true]] ->
  exists m' p',
    invalidate metadata_id None (m, w) = (Ok tt, (m', w)) /\
    redis m' = redis m /\
    postgres m' = Some p' /\ pg_table p' = pg_table p /\ pg_committed p' = pg_committed p /\
    pg_faults p' = Faults rest after /\
    stats m' = stats m /\
    printed m' = printed m ++ [Invalidation_error (ConnectionError "postgres")].
Proof.
  destruct m as [rd pg cap ttl st pr], p as [t c rows pfs psent]. simpl.
  intros -> -> Hin.
  destruct Hin as [<- | [<- | [<- | []]]];
    do 2 eexists; (split; [reflexivity |]); simpl; repeat split.
Qed.

End MoreInvalidateFacts.

Lemma invalidate_leaves_others_witness :
  let k := _generate_cache_key "e1" "q2" in
  let m' := fst (snd (invalidate (W := nat) "e1" (Some "q1") (warm, 0%nat))) in
  l1_lookup m' k = l1_lookup warm k /\ l2_lookup m' k = l2_lookup warm k /\
  stats m' = stats warm.
Proof.
  apply (invalidate_leaves_others "e1" (Some "q1") warm 0%nat
           (_generate_cache_key "e1" "q2")).
  vm_compute. discriminate.
Defined.


Lemma invalidate_entity_listing_fails_witness :
  exists m' p',
    invalidate (W := nat) "e1" None (dropping, 0%nat) = (Ok tt, (m', 0%nat)) /\
    redis m' = redis dropping /\
    postgres m' = Some p' /\ pg_table p' = pg_table dropping_l2 /\
    pg_committed p' = pg_committed dropping_l2 /\
    pg_faults p' = Faults [] false /\
    stats m' = stats dropping /\
    printed m' = printed dropping ++ [Invalidation_error (ConnectionError "postgres")].
Proof.
  apply (invalidate_entity_listing_fails "e1" dropping 0%nat dropping_l2
           [false; true] [] false).
  - reflexivity.
  - reflexivity.
  - simpl. tauto.
Defined.

(** * Further properties of the lazy property *)

Ltac run_lazy :=
  unfold Lazy.instance_get, of_option, raise, gets, modify, mbind, M_bind, mret, M_ret;
  cbn [fst snd Lazy.attrs Lazy.setattr Lazy.set_log Lazy._lazy_access_log Lazy.core].

Section MoreLazyFacts.

Context {Core Value W : Type}.
Variable time_time : W -> Z.

Implicit Types (self : @Lazy.LazyProperty Core Value W) (o : @Lazy.Obj Core Value).

(** The instance that a first read leaves. *)
Lemma instance_get_first_state self o (w w1 : W) (v : Value) :
  Lazy.attrs o !! Lazy.attr_name self = None ->
  Lazy.func self o w = (Ok v, w1) ->
  Lazy.instance_get time_time self (o, w) =
    (Ok v,
     (Lazy.MkObj (Lazy.core o) (<[Lazy.attr_name self := v]> (Lazy.attrs o))
        (option_map
           (fun l => <[Lazy.func_name self := Lazy.LogEntry (Some (time_time w1)) (Some 1)]> l)
           (Lazy._lazy_access_log o)),
      w1)).
Proof.
  destruct o as [c a [l |]]; cbn [Lazy.attrs Lazy.core Lazy._lazy_access_log option_map];
    intros Hnone Hf; run_lazy; rewrite Hnone; run_lazy; rewrite Hf; run_lazy;
    rewrite lookup_insert_eq; reflexivity.
Qed.

(** A read whose computation raises leaves the instance as it was. *)
Lemma instance_get_fails_state self o (w w1 : W) (e : exn) :
  Lazy.attrs o !! Lazy.attr_name self = None ->
  Lazy.func self o w = (Raise e, w1) ->
  Lazy.instance_get time_time self (o, w) = (Raise e, (o, w1)).
Proof.
  intros Hnone Hf. run_lazy. rewrite Hnone. run_lazy. rewrite Hf. destruct o. reflexivity.
Qed.

(** The instance that a later read leaves, when the log has the entry. *)
Lemma instance_get_again_state self o (w : W) (v : Value) (l : gmap string Lazy.log_entry)
    (entry : Lazy.log_entry) :
  Lazy.attrs o !! Lazy.attr_name self = Some v ->
  Lazy._lazy_access_log o = Some l -> l !! Lazy.func_name self = Some entry ->
  Lazy.instance_get time_time self (o, w) =
    (Ok v,
     (Lazy.MkObj (Lazy.core o) (Lazy.attrs o)
        (Some (<[Lazy.func_name self :=
                   Lazy.LogEntry (Lazy.computed_at entry)
                     (Some (default 0 (Lazy.access_count entry) + 1))]> l)),
      w)).
Proof.
  intros Hsome Hlog Hentry. run_lazy. rewrite Hsome. run_lazy.
  rewrite Hlog. run_lazy. rewrite Hentry. run_lazy. rewrite Hsome. reflexivity.
Qed.

Lemma reads_logged (n : nat) self o (w : W) (v : Value) (l : gmap string Lazy.log_entry)
    (t : option Z) (k : Z) :
  Lazy.attrs o !! Lazy.attr_name self = Some v ->
  Lazy._lazy_access_log o = Some l ->
  l !! Lazy.func_name self = Some (Lazy.LogEntry t (Some k)) ->
  Lazy.reads time_time n self (o, w) =
    (List.repeat (Ok v) n,
     (Lazy.MkObj (Lazy.core o) (Lazy.attrs o)
        (Some (<[Lazy.func_name self := Lazy.LogEntry t (Some (k + Z.of_nat n))]> l)),
      w)).
Proof.
  revert o l k. induction n as [| n IH]; intros o l k Hsome Hlog Hentry.
  - cbn [Lazy.reads List.repeat]. rewrite Z.add_0_r.
    rewrite (insert_id _ _ _ Hentry). destruct o. simpl in Hlog. now subst.
  - cbn [Lazy.reads List.repeat].
    rewrite (instance_get_again_state self o w v l _ Hsome Hlog Hentry).
    cbn [Lazy.computed_at Lazy.access_count default].
    erewrite (IH _ _ (k + 1)); [| exact Hsome | reflexivity | apply lookup_insert_eq].
    cbn [Lazy.core Lazy.attrs]. rewrite insert_insert_eq.
    replace (k + 1 + Z.of_nat n) with (k + Z.of_nat (S n)) by lia. reflexivity.
Qed.

(** X14.  The access log counts the reads.  On an instance that has a log and
    whose slot is not yet set, after [n + 1] reads of a lazy property the
    entry of the property holds the time just after the one computation
    and the count [n + 1]; the other entries of the log are as they were. *)
Theorem lazy_access_log_counts_reads self o (w w1 : W) (v : Value) (n : nat)
    (l : gmap string Lazy.log_entry) :
  Lazy.attrs o !! Lazy.attr_name self = None ->
  Lazy._lazy_access_log o = Some l ->
  Lazy.func self o w = (Ok v, w1) ->
  exists o',
    Lazy.reads time_time (S n) self (o, w) = (List.repeat (Ok v) (S n), (o', w1)) /\
    Lazy._lazy_access_log o' =
      Some (<[Lazy.func_name self :=
                Lazy.LogEntry (Some (time_time w1)) (Some (Z.of_nat (S n)))]> l).
Proof.
  intros Hnone Hlog Hf. cbn [Lazy.reads List.repeat].
  rewrite (instance_get_first_state self o w w1 v Hnone Hf). rewrite Hlog.
  cbn [option_map].
  erewrite (reads_logged n self _ w1 v _ (Some (time_time w1)) 1);
    [| apply lookup_insert_eq | reflexivity | apply lookup_insert_eq].
  eexists. split; [reflexivity |]. cbn [Lazy._lazy_access_log].
  rewrite insert_insert_eq.
  replace (1 + Z.of_nat n) with (Z.of_nat (S n)) by lia. reflexivity.
Qed.

Lemma attr_name_inj self (other : @Lazy.LazyProperty Core Value W) :
  Lazy.attr_name self = Lazy.attr_name other -> Lazy.func_name self = Lazy.func_name other.
Proof. unfold Lazy.attr_name. intros E. now injection E. Qed.

(** X15.  Lazy properties do not interfere.  A read of one property, whatever
    it does, leaves the slot and the log entry of every property of
    another name as they were. *)
Theorem lazy_properties_independent self (other : @Lazy.LazyProperty Core Value W) o (w : W) :
  Lazy.func_name self <> Lazy.func_name other ->
  let o' := fst (snd (Lazy.instance_get time_time self (o, w))) in
  Lazy.attrs o' !! Lazy.attr_name other = Lazy.attrs o !! Lazy.attr_name other /\
  log_lookup o' (Lazy.func_name other) = log_lookup o (Lazy.func_name other).
Proof.
  intros Hne o'. subst o'.
  assert (Hattr : Lazy.attr_name self <> Lazy.attr_name other).
  { intros E. now apply Hne, attr_name_inj. }
  unfold log_lookup. run_lazy.
  destruct (Lazy.attrs o !! Lazy.attr_name self) as [v0 |] eqn:Hmemo; run_lazy.
  - destruct (Lazy._lazy_access_log o) as [l |] eqn:Hlog; run_lazy.
    + destruct (l !! Lazy.func_name self) as [entry |]; run_lazy;
        rewrite Hmemo; cbn; rewrite ?Hlog, ?lookup_insert_ne by assumption; auto.
    + rewrite Hmemo. cbn. rewrite Hlog. auto.
  - destruct (Lazy.func self o w) as [[v | e] w1]; run_lazy.
    + destruct (Lazy._lazy_access_log o) as [l |] eqn:Hlog; run_lazy;
        rewrite lookup_insert_eq; cbn; rewrite ?Hlog, ?lookup_insert_ne by assumption; auto.
    + auto.
Qed.

End MoreLazyFacts.

(** X16.  A computation that fails is not memoized.  If the bound function
    raises on the first read, the read raises the same exception and
    leaves the instance as it was, log included; the next read invokes
    the function again, and memoizes what it then returns. *)
Theorem lazy_failure_not_memoized {Core Value W : Type} (time_time : W -> Z)
    (self : @Lazy.LazyProperty Core Value W) (o : @Lazy.Obj Core Value)
    (w w1 w2 : W) (e : exn) (v : Value) :
  Lazy.attrs o !! Lazy.attr_name self = None ->
  Lazy.func self o w = (Raise e, w1) ->
  Lazy.func self o w1 = (Ok v, w2) ->
  Lazy.instance_get time_time self (o, w) = (Raise e, (o, w1)) /\
  exists o',
    Lazy.reads (fun wn => time_time (fst wn)) 2 (Lazy.counting self) (o, (w, 0%nat)) =
      ([Raise e; Ok v], (o', (w2, 2%nat))) /\
    Lazy.attrs o' !! Lazy.attr_name self = Some v.
Proof.
  intros Hnone Hf1 Hf2. split.
  - now apply instance_get_fails_state.
  - cbn [Lazy.reads].
    rewrite (instance_get_fails_state _ (Lazy.counting self) o (w, 0%nat) (w1, 1%nat) e).
    2: exact Hnone.
    2: { cbn. now rewrite Hf1. }
    rewrite (instance_get_first_state _ (Lazy.counting self) o (w1, 1%nat) (w2, 2%nat) v).
    + eexists. split; [reflexivity |]. cbn [Lazy.attrs]. apply lookup_insert_eq.
    + exact Hnone.
    + cbn. now rewrite Hf2.
Qed.

Lemma lazy_access_log_counts_reads_witness :
  exists o',
    Lazy.reads (fun w : Z => w) 3 tick (Lazy.MkObj tt ∅ (Some ∅), 0) =
      ([Ok 1; Ok 1; Ok 1], (o', 1)) /\
    Lazy._lazy_access_log o' =
      Some (<[Lazy.func_name tick := Lazy.LogEntry (Some 1) (Some 3)]> ∅).
Proof.
  apply (lazy_access_log_counts_reads (fun w => w) tick (Lazy.MkObj tt ∅ (Some ∅)) 0 1 1 2 ∅);
    reflexivity.
Defined.

Lemma lazy_failure_not_memoized_witness :
  Lazy.instance_get (fun w : Z => w) shaky (Lazy.MkObj tt ∅ (Some ∅), 0) =
    (Raise (ComputeError "no image"), (Lazy.MkObj tt ∅ (Some ∅), 1)) /\
  exists o',
    Lazy.reads (fun wn : Z * nat => fst wn) 2 (Lazy.counting shaky)
               (Lazy.MkObj tt ∅ (Some ∅), (0, 0%nat)) =
      ([Raise (ComputeError "no image"); Ok 2], (o', (2, 2%nat))) /\
    Lazy.attrs o' !! Lazy.attr_name shaky = Some 2.
Proof.
  apply (lazy_failure_not_memoized (fun w => w) shaky (Lazy.MkObj tt ∅ (Some ∅)) 0 1 2
           (ComputeError "no image") 2);
    reflexivity.
Defined.

Lemma lazy_properties_independent_witness :
  let o := Lazy.MkObj tt ∅ (Some ∅) in
  let o' := fst (snd (Lazy.instance_get (fun w : Z => w) tick (o, 0))) in
  Lazy.attrs o' !! Lazy.attr_name shaky = Lazy.attrs o !! Lazy.attr_name shaky /\
  log_lookup o' (Lazy.func_name shaky) = log_lookup o (Lazy.func_name shaky).
Proof.
  apply (lazy_properties_independent (fun w => w) tick shaky (Lazy.MkObj tt ∅ (Some ∅)) 0).
  discriminate.
Defined.

(** * The metadata record *)

Section MetadataFacts.

Context {Value W : Type} `{Json Value}.

Variable time_time : W -> Z.
Variable imaging : Metadata.Imaging Value W.

Implicit Types (o : @Lazy.Obj Metadata.Fields Value)
  (prop : @Lazy.LazyProperty Metadata.Fields Value W).

Ltac run_sizes :=
  unfold Metadata.measure, Metadata.hasattr, of_option, raise, gets, mbind, M_bind, mret, M_ret;
  cbn [fst snd orb].

(** One turn of the loop of [get_lazy_size], in its three cases. *)
Lemma sizes_skips prop (rest : list (@Lazy.LazyProperty Metadata.Fields Value W))
    (total : Z) o (w : W) :
  Lazy.attrs o !! Lazy.attr_name prop = None ->
  Metadata.sizes time_time (prop :: rest) false total (o, w) =
  Metadata.sizes time_time rest false total (o, w).
Proof. intros Hnone. cbn [Metadata.sizes]. run_sizes. now rewrite Hnone. Qed.

Lemma sizes_stored prop (rest : list (@Lazy.LazyProperty Metadata.Fields Value W))
    (total : Z) o (w : W) (v : Value) (s : string) :
  Lazy.attrs o !! Lazy.attr_name prop = Some v -> json_dumps v = Some s ->
  Metadata.sizes time_time (prop :: rest) false total (o, w) =
  Metadata.sizes time_time rest false (total + Z.of_nat (String.length s)) (o, w).
Proof.
  intros Hsome Hd. cbn [Metadata.sizes]. run_sizes. rewrite Hsome. run_sizes.
  rewrite Hsome. now rewrite Hd.
Qed.

Lemma sizes_forced prop (rest : list (@Lazy.LazyProperty Metadata.Fields Value W))
    (total : Z) o (w w1 : W) (v : Value) (s : string) :
  Lazy.attrs o !! Lazy.attr_name prop = None ->
  Lazy.func prop o w = (Ok v, w1) -> json_dumps v = Some s ->
  Metadata.sizes time_time (prop :: rest) true total (o, w) =
  Metadata.sizes time_time rest true (total + Z.of_nat (String.length s))
    (Lazy.MkObj (Lazy.core o) (<[Lazy.attr_name prop := v]> (Lazy.attrs o))
       (option_map
          (fun l => <[Lazy.func_name prop := Lazy.LogEntry (Some (time_time w1)) (Some 1)]> l)
          (Lazy._lazy_access_log o)),
     w1).
Proof.
  intros Hnone Hf Hd. cbn [Metadata.sizes].
  unfold mbind at 1, M_bind at 1, gets at 1. cbn [orb].
  rewrite (bind_ok _ _ _ _ _ (instance_get_first_state time_time prop o w w1 v Hnone Hf)).
  run_sizes. now rewrite Hd.
Qed.

(** X17.  Measuring what has been computed is silent.  [get_lazy_size()]
    invokes no computation: from every instance and world it leaves both
    as they were, access log included.  On a new instance it returns 0. *)
Theorem get_lazy_size_is_silent o (w : W) (fields : Metadata.Fields)
    (log : option (gmap string Lazy.log_entry)) :
  snd (Metadata.get_lazy_size time_time imaging false (o, w)) = (o, w) /\
  fst (Metadata.get_lazy_size time_time imaging false (Metadata.__init__ fields log, w)) = Ok 0.
Proof.
  split.
  - unfold Metadata.get_lazy_size. generalize 0. generalize (Metadata.lazy_properties imaging).
    intros props. induction props as [| prop rest IH]; intros total; [reflexivity |].
    destruct (Lazy.attrs o !! Lazy.attr_name prop) as [v |] eqn:Hmemo.
    + destruct (json_dumps v) as [s |] eqn:Hd.
      * rewrite (sizes_stored prop rest total o w v s Hmemo Hd). apply IH.
      * cbn [Metadata.sizes]. run_sizes. rewrite Hmemo. run_sizes.
        rewrite Hmemo. now rewrite Hd.
    + rewrite (sizes_skips prop rest total o w Hmemo). apply IH.
  - unfold Metadata.get_lazy_size, Metadata.lazy_properties.
    rewrite !sizes_skips by apply lookup_empty. reflexivity.
Qed.

(** X18.  Measuring everything forces everything.  On a new instance whose
    four computations succeed, one after the other, and give
    serializable values, [get_lazy_size(True)] invokes each of them and
    returns the sum of the four serialized lengths; after it,
    [get_lazy_size()] returns the same sum, and the access statistics
    report four properties computed out of four. *)
Theorem get_lazy_size_forces_all (fields : Metadata.Fields) (w0 w1 w2 w3 w4 : W)
    (v1 v2 v3 v4 : Value) (s1 s2 s3 s4 : string) :
  let path := Metadata.transformed_image_path fields in
  let total := Z.of_nat (String.length s1) + Z.of_nat (String.length s2) +
               Z.of_nat (String.length s3) + Z.of_nat (String.length s4) in
  Metadata.histogram_of imaging path w0 = (Ok v1, w1) ->
  Metadata.color_distribution_of imaging path w1 = (Ok v2, w2) ->
  Metadata.texture_metrics_of imaging path w2 = (Ok v3, w3) ->
  Metadata.perceptual_hash_of imaging path w3 = (Ok v4, w4) ->
  json_dumps v1 = Some s1 -> json_dumps v2 = Some s2 ->
  json_dumps v3 = Some s3 -> json_dumps v4 = Some s4 ->
  exists o' l,
    Metadata.get_lazy_size time_time imaging true (Metadata.__init__ fields None, w0) =
      (Ok total, (o', w4)) /\
    Metadata.get_lazy_size time_time imaging false (o', w4) = (Ok total, (o', w4)) /\
    Metadata.get_access_statistics o' = Ok (Metadata.MkAccessStatistics l 4 4).
Proof.
  intros path total H1 H2 H3 H4 D1 D2 D3 D4.
  unfold Metadata.get_lazy_size, Metadata.lazy_properties, Metadata.__init__.
  cbn [default].
  erewrite (sizes_forced _ _ _ _ w0 w1 v1 s1); [| apply lookup_empty | exact H1 | exact D1].
  cbn [Lazy.core Lazy.attrs Lazy._lazy_access_log option_map].
  erewrite (sizes_forced _ _ _ _ w1 w2 v2 s2);
    [| cbn [Lazy.attrs]; rewrite lookup_insert_ne by discriminate; apply lookup_empty
     | exact H2 | exact D2].
  cbn [Lazy.core Lazy.attrs Lazy._lazy_access_log option_map].
  erewrite (sizes_forced _ _ _ _ w2 w3 v3 s3);
    [| cbn [Lazy.attrs]; rewrite !lookup_insert_ne by discriminate; apply lookup_empty
     | exact H3 | exact D3].
  cbn [Lazy.core Lazy.attrs Lazy._lazy_access_log option_map].
  erewrite (sizes_forced _ _ _ _ w3 w4 v4 s4);
    [| cbn [Lazy.attrs]; rewrite !lookup_insert_ne by discriminate; apply lookup_empty
     | exact H4 | exact D4].
  cbn [Lazy.core Lazy.attrs Lazy._lazy_access_log option_map].
  do 2 eexists. split; [reflexivity |]. split.
  - erewrite (sizes_stored _ _ _ _ _ v1 s1); [| | exact D1].
    2: { cbn [Lazy.attrs]. rewrite !lookup_insert_ne by discriminate. apply lookup_insert_eq. }
    erewrite (sizes_stored _ _ _ _ _ v2 s2); [| | exact D2].
    2: { cbn [Lazy.attrs]. rewrite !lookup_insert_ne by discriminate. apply lookup_insert_eq. }
    erewrite (sizes_stored _ _ _ _ _ v3 s3); [| | exact D3].
    2: { cbn [Lazy.attrs]. rewrite !lookup_insert_ne by discriminate. apply lookup_insert_eq. }
    erewrite (sizes_stored _ _ _ _ _ v4 s4); [| | exact D4].
    2: { cbn [Lazy.attrs]. apply lookup_insert_eq. }
    reflexivity.
  - unfold Metadata.get_access_statistics. cbn [Lazy._lazy_access_log].
    rewrite !map_size_insert_None; [reflexivity | ..];
      rewrite ?lookup_insert_ne by discriminate; apply lookup_empty.
Qed.

(** The access log keeps matching the slots under a read of a declared
    property. *)
Lemma instance_get_keeps_log prop (s : @Lazy.Obj Metadata.Fields Value * W) :
  List.In prop (Metadata.lazy_properties imaging) ->
  Metadata.log_matches_slots imaging (fst s) ->
  Metadata.log_matches_slots imaging (fst (snd (Lazy.instance_get time_time prop s))).
Proof.
  destruct s as [o w]. cbn [fst]. intros Hin (l & Hl & Hiff).
  assert (Hname : List.In (Lazy.func_name prop)
                    (List.map Lazy.func_name (Metadata.lazy_properties imaging)))
    by now apply List.in_map.
  assert (Hother : forall name, name <> Lazy.func_name prop ->
            Lazy.attr_name prop <> ("_lazy_" ++ name)%string).
  { intros name Hne E. apply Hne. unfold Lazy.attr_name in E. now injection E. }
  destruct (Lazy.attrs o !! Lazy.attr_name prop) as [v |] eqn:Hmemo.
  - destruct (proj2 (Hiff (Lazy.func_name prop))) as [entry Hentry].
    { split; [exact Hname | now exists v]. }
    rewrite (instance_get_again_state time_time prop o w v l entry Hmemo Hl Hentry).
    eexists. split; [reflexivity |]. cbn [fst snd Lazy.attrs].
    intros name. destruct (decide (name = Lazy.func_name prop)) as [-> | Hne].
    + rewrite lookup_insert_eq. split; [| now eexists].
      intros _. split; [exact Hname | now exists v].
    + rewrite lookup_insert_ne by congruence. apply Hiff.
  - destruct (Lazy.func prop o w) as [[v | e] w1] eqn:Hf.
    + rewrite (instance_get_first_state time_time prop o w w1 v Hmemo Hf). rewrite Hl.
      eexists. split; [reflexivity |]. cbn [fst snd Lazy.attrs].
      intros name. destruct (decide (name = Lazy.func_name prop)) as [-> | Hne].
      * rewrite lookup_insert_eq. split; [| now eexists].
        intros _. split; [exact Hname |].
        change ("_lazy_" ++ Lazy.func_name prop)%string with (Lazy.attr_name prop).
        rewrite lookup_insert_eq. now eexists.
      * rewrite !lookup_insert_ne by auto. apply Hiff.
    + rewrite (instance_get_fails_state time_time prop o w w1 e Hmemo Hf).
      now exists l.
Qed.

Lemma maintains_ret {S A : Type} (P : S -> Prop) (a : A) : maintains P (mret a : M S A).
Proof. intros s Hs. exact Hs. Qed.

Lemma maintains_bind {S A B : Type} (P : S -> Prop) (c : M S A) (k : A -> M S B) :
  maintains P c -> (forall a, maintains P (k a)) -> maintains P (c ≫= k).
Proof.
  intros Hc Hk s Hs. specialize (Hc s Hs). unfold mbind, M_bind.
  destruct (c s) as [[a | e] s1]; [apply Hk |]; exact Hc.
Qed.

Lemma maintains_gets {S A : Type} (P : S -> Prop) (f : S -> A) : maintains P (gets f).
Proof. intros s Hs. exact Hs. Qed.

Lemma maintains_of_option {S A : Type} (P : S -> Prop) (e : exn) (o : option A) :
  maintains P (of_option e o : M S A).
Proof. intros s Hs. destruct o; exact Hs. Qed.

Lemma sizes_keep_log (props : list (@Lazy.LazyProperty Metadata.Fields Value W))
    (include_uncomputed : bool) (total : Z) :
  (forall prop, List.In prop props -> List.In prop (Metadata.lazy_properties imaging)) ->
  maintains (fun s => Metadata.log_matches_slots imaging (fst s))
            (Metadata.sizes time_time props include_uncomputed total).
Proof.
  revert total. induction props as [| prop rest IH]; intros total Hsub.
  - apply maintains_ret.
  - cbn [Metadata.sizes].
    apply maintains_bind; [apply maintains_gets | intros computed].
    assert (Hrest : forall t, maintains (fun s => Metadata.log_matches_slots imaging (fst s))
                                (Metadata.sizes time_time rest include_uncomputed t)).
    { intros t. apply IH. intros p Hp. apply Hsub. now right. }
    destruct (include_uncomputed || computed); [| apply Hrest].
    apply maintains_bind.
    + destruct include_uncomputed.
      * intros s Hs. apply instance_get_keeps_log; [apply Hsub; now left | exact Hs].
      * apply maintains_bind; [apply maintains_gets | intros stored].
        apply maintains_of_option.
    + intros value. apply maintains_bind; [| intros size; apply Hrest].
      unfold Metadata.measure.
      apply maintains_bind; [apply maintains_of_option | intros s0; apply maintains_ret].
Qed.

(** The size of a map whose keys are among distinct [names]. *)
Lemma size_by_names {V : Type} (l : gmap string V) (names : list string) :
  List.NoDup names -> (forall k, is_Some (l !! k) -> List.In k names) ->
  size l = List.length (List.filter (has_key l) names).
Proof.
  intros Hnd. revert l. induction Hnd as [| k ks Hk Hnd IH]; intros l Hdom.
  - cbn. apply map_size_empty_iff, map_empty. intros i.
    destruct (l !! i) eqn:E; [| reflexivity]. destruct (Hdom i); eauto.
  - cbn [List.filter]. unfold has_key at 1. destruct (l !! k) as [x |] eqn:Hx.
    + cbn [List.length]. rewrite <- (insert_delete_id l k x Hx).
      rewrite map_size_insert_None by apply lookup_delete_eq. f_equal.
      rewrite IH.
      * f_equal. apply List.filter_ext_in. intros k' Hk'. unfold has_key.
        rewrite insert_delete_id by exact Hx.
        rewrite lookup_delete_ne; [reflexivity |]. intros ->. contradiction.
      * intros k' Hs. destruct (decide (k = k')) as [<- | Hne].
        -- rewrite lookup_delete_eq in Hs. now destruct Hs.
        -- rewrite lookup_delete_ne in Hs by exact Hne.
           destruct (Hdom k' Hs) as [-> | Hin]; [contradiction | exact Hin].
    + apply IH. intros k' Hs. destruct (Hdom k' Hs) as [<- | Hin]; [| exact Hin].
      rewrite Hx in Hs. now destruct Hs.
Qed.

Lemma filter_map_length {A B : Type} (f : B -> bool) (g : A -> B) (l : list A) :
  List.length (List.filter f (List.map g l)) = List.length (List.filter (fun a => f (g a)) l).
Proof.
  induction l as [| a l IH]; [reflexivity |]. cbn. destruct (f (g a)); cbn; now rewrite IH.
Qed.

(** X19.  The statistics count the slots.  On an instance made by the
    constructor with its default log, after any sequence of reads of the
    four lazy properties and of measurements, whatever the computations
    do, [get_access_statistics] returns, and [properties_computed] is
    the number of lazy properties whose slot is set, which is
    [total_lazy_properties] at most. *)
Theorem properties_computed_counts_slots (fields : Metadata.Fields)
    (accesses : list Metadata.access) (w : W) :
  List.Forall (Metadata.declared imaging) accesses ->
  let self :=
    fst (foldl (Metadata.perform time_time imaging) (Metadata.__init__ fields None, w)
               accesses) in
  exists st,
    Metadata.get_access_statistics self = Ok st /\
    Metadata.properties_computed st =
      Z.of_nat (List.length (Metadata.computed_properties imaging self)) /\
    Metadata.properties_computed st <= Metadata.total_lazy_properties st.
Proof.
  intros Hdecl self.
  assert (Hinv : Metadata.log_matches_slots imaging self).
  { subst self.
    assert (H0 : Metadata.log_matches_slots imaging
                   (fst (Metadata.__init__ (Value := Value) fields None, w))).
    { exists ∅. split; [reflexivity |]. intros name. cbn.
      rewrite !lookup_empty. split; [intros [? [=]] | intros [_ [? [=]]]]. }
    revert H0. generalize (Metadata.__init__ (Value := Value) fields None, w).
    induction Hdecl as [| a accesses Ha _ IH]; intros s Hs; [exact Hs |].
    cbn [foldl]. apply IH. destruct a as [prop | include_uncomputed]; cbn [Metadata.perform].
    - now apply instance_get_keeps_log.
    - apply (sizes_keep_log _ include_uncomputed 0); [auto | exact Hs]. }
  clearbody self. destruct Hinv as (l & Hl & Hiff).
  unfold Metadata.get_access_statistics. rewrite Hl.
  eexists. split; [reflexivity |].
  cbn [Metadata.properties_computed Metadata.total_lazy_properties].
  assert (Hsize : size l = List.length (Metadata.computed_properties imaging self)).
  { rewrite (size_by_names l (List.map Lazy.func_name (Metadata.lazy_properties imaging))).
    - rewrite filter_map_length. unfold Metadata.computed_properties. f_equal.
      apply List.filter_ext_in. intros prop Hin.
      unfold has_key, Metadata.hasattr.
      pose proof (Hiff (Lazy.func_name prop)) as Hp.
      change ("_lazy_" ++ Lazy.func_name prop)%string with (Lazy.attr_name prop) in Hp.
      destruct (l !! Lazy.func_name prop) as [entry |],
               (Lazy.attrs self !! Lazy.attr_name prop) as [v |]; try reflexivity.
      + destruct (proj1 Hp) as [_ [? [=]]]. now eexists.
      + destruct (proj2 Hp) as [? [=]]. split; [now apply List.in_map | now eexists].
    - cbn. repeat constructor; cbn; intuition discriminate.
    - intros k Hk. now apply Hiff. }
  rewrite Hsize. split; [reflexivity |].
  unfold Metadata.computed_properties.
  pose proof (List.filter_length_le
                (fun prop => Metadata.hasattr self (Lazy.attr_name prop))
                (Metadata.lazy_properties imaging)) as Hle.
  cbn [Metadata.lazy_properties List.length] in Hle. cbn [Metadata.lazy_properties]. lia.
Qed.

End MetadataFacts.

Lemma get_lazy_size_forces_all_witness :
  exists o' l,
    Metadata.get_lazy_size (fun w : Z => w) toy_imaging true
      (Metadata.__init__ sample_fields None, 0) =
      (Ok (Z.of_nat (String.length "10") + Z.of_nat (String.length "201") +
           Z.of_nat (String.length "3002") + Z.of_nat (String.length "40003")), (o', 4)) /\
    Metadata.get_lazy_size (fun w : Z => w) toy_imaging false (o', 4) =
      (Ok (Z.of_nat (String.length "10") + Z.of_nat (String.length "201") +
           Z.of_nat (String.length "3002") + Z.of_nat (String.length "40003")), (o', 4)) /\
    Metadata.get_access_statistics o' = Ok (Metadata.MkAccessStatistics l 4 4).
Proof.
  apply (get_lazy_size_forces_all (fun w => w) toy_imaging sample_fields 0 1 2 3 4
           10 201 3002 40003 "10" "201" "3002" "40003");
    reflexivity.
Defined.

Lemma properties_computed_counts_slots_witness :
  let self :=
    fst (foldl (Metadata.perform (fun w : Z => w) toy_imaging)
               (Metadata.__init__ sample_fields None, 0)
               [Metadata.Read (Metadata.texture_metrics toy_imaging); Metadata.Measure false;
                Metadata.Read (Metadata.texture_metrics toy_imaging);
                Metadata.Read (Metadata.histogram toy_imaging)]) in
  exists st,
    Metadata.get_access_statistics self = Ok st /\
    Metadata.properties_computed st =
      Z.of_nat (List.length (Metadata.computed_properties toy_imaging self)) /\
    Metadata.properties_computed st <= Metadata.total_lazy_properties st.
Proof.
  apply (properties_computed_counts_slots (fun w => w) toy_imaging sample_fields
           [Metadata.Read (Metadata.texture_metrics toy_imaging); Metadata.Measure false;
            Metadata.Read (Metadata.texture_metrics toy_imaging);
            Metadata.Read (Metadata.histogram toy_imaging)] 0).
  repeat constructor; simpl; tauto.
Defined.

(** * The format of the cache key *)

Lemma hex_digit_is_hex (n : Z) : 0 <= n < 16 -> is_hex (Sha256.hex_digit n) = true.
Proof.
  intros Hn.
  assert (Hall : forallb (fun k => is_hex (Sha256.hex_digit (Z.of_nat k))) (List.seq 0 16) = true)
    by (vm_compute; reflexivity).
  rewrite forallb_forall in Hall.
  specialize (Hall (Z.to_nat n)). rewrite Z2Nat.id in Hall by lia.
  apply Hall, List.in_seq. lia.
Qed.

Lemma hex_word_is_hex (w : Sha256.word) (c : ascii) :
  List.In c (Sha256.hex_word w) -> is_hex c = true.
Proof.
  unfold Sha256.hex_word. intros Hin. apply List.in_map_iff in Hin as (i & <- & _).
  apply hex_digit_is_hex. change 15 with (Z.ones 4).
  rewrite Z.land_ones by lia. apply Z.mod_pos_bound. reflexivity.
Qed.

Lemma in_firstn {A : Type} (n : nat) (l : list A) (x : A) :
  List.In x (List.firstn n l) -> List.In x l.
Proof.
  revert l. induction n as [| n IH]; intros [| a l]; cbn; try tauto.
  intros [-> | Hin]; [now left | right; now apply IH].
Qed.

(** X20.  The cache key is made of lowercase hexadecimal digits: whatever the
    identifier and the property name contain, every one of the 16
    characters of the key is one of [0-9a-f].  In particular the key is
    never empty and has no separator in it. *)
Theorem cache_key_is_hex (metadata_id property_name : string) :
  let key := _generate_cache_key metadata_id property_name in
  forallb is_hex (list_ascii_of_string key) = true /\
  nonempty key = true /\ no_colon key = true.
Proof.
  intros key.
  assert (Hhex : forallb is_hex (list_ascii_of_string key) = true).
  { apply forallb_forall. intros c Hin. subst key. unfold _generate_cache_key in Hin.
    rewrite list_ascii_of_string_of_list_ascii in Hin. apply in_firstn in Hin.
    unfold Sha256.hexdigest, Sha256.hex_regs in Hin.
    repeat (apply List.in_app_or in Hin as [Hin | Hin];
            [now apply hex_word_is_hex in Hin |]).
    now apply hex_word_is_hex in Hin. }
  split; [exact Hhex |].
  pose proof (cache_key_length metadata_id property_name) as Hlen. fold key in Hlen.
  clearbody key. split.
  - destruct key; [discriminate | reflexivity].
  - clear Hlen. induction key as [| c key IH]; [reflexivity |].
    cbn [list_ascii_of_string forallb] in Hhex. apply andb_prop in Hhex as [Hc Hrest].
    cbn [no_colon]. rewrite (IH Hrest), Bool.andb_true_r.
    destruct (Ascii.eqb_spec c ":") as [-> | _]; [discriminate Hc | reflexivity].
Qed.

(** * The time to live on L1 *)

Section TtlFacts.

Context {Value W : Type} `{Json Value}.

(** X21.  What a computed miss sends to L1.  With a healthy L1 that lacks the
    key, [get] sends three commands: the [GET], the write, and the
    [DBSIZE] of the capacity check.  The write is a [SETEX] with
    [l1_ttl] when that is set and is not zero; with no TTL, and with a
    TTL of zero, it is a [SET], and the entry does not expire. *)
Theorem get_miss_writes_l1_with_ttl (metadata_id property_name : string)
    (f : @callable Value W) (m : Manager) (w w' : W) (v : Value) (s : string) (r : Redis) :
  let key := _generate_cache_key metadata_id property_name in
  redis m = Some r -> r_faults r = healthy -> r_data r !! key = None ->
  l2_misses m key ->
  f w = (Ok v, w') -> json_dumps v = Some s ->
  exists m' r',
    get metadata_id property_name (Some f) (m, w) = (Ok (Some v), (m', w')) /\
    redis m' = Some r' /\
    r_sent r' =
      r_sent r ++
      [GET key;
       match l1_ttl m with
       | Some 0 | None => SET key s
       | Some t => SETEX key t s
       end;
       DBSIZE].
Proof.
  intros key Hr Hf Hk H2 Hfw Hd.
  unfold get. change (_generate_cache_key metadata_id property_name) with key. clearbody key.
  destruct m as [rd pg cap ttl st pr]. simpl in Hr. subst rd.
  destruct r as [d fs sent]. simpl in Hf, Hk. subst fs.
  unfold l2_misses, if_present in H2. simpl in H2.
  destruct pg as [[t c rows pfs psent] |]; simpl in H2;
    [destruct H2 as [-> L2] |];
    run_mgr;
    repeat (first [ rewrite Hk | rewrite L2 | rewrite Hfw | rewrite Hd ]; simpl);
    (destruct ttl as [[| t0 | t0] |]; simpl;
     match goal with
     | |- context [ if ?a >? ?b then _ else _ ] => destruct (a >? b); simpl
     end;
     do 2 eexists; (split; [reflexivity |]); simpl;
     rewrite <- ?List.app_assoc; repeat split).
Qed.

End TtlFacts.

Lemma get_miss_writes_l1_with_ttl_witness :
  let key := _generate_cache_key "e1" "histogram" in
  exists m' r',
    get "e1" "histogram" (Some (returning 42)) (expiring, 0%nat) = (Ok (Some 42), (m', 1%nat)) /\
    redis m' = Some r' /\
    r_sent r' =
      r_sent empty_redis ++
      [GET key;
       match l1_ttl expiring with
       | Some 0 | None => SET key "42"
       | Some t => SETEX key t "42"
       end;
       DBSIZE].
Proof.
  apply (get_miss_writes_l1_with_ttl "e1" "histogram" (returning 42) expiring 0%nat 1%nat
           42 "42" empty_redis).
  - reflexivity.
  - reflexivity.
  - reflexivity.
  - simpl. split; reflexivity.
  - reflexivity.
  - reflexivity.
Defined.

(** * Recomputation over corrupt entries *)

Section HealingFacts.

Context {Value W : Type} `{Json Value}.





End HealingFacts.



(** * The counters over sequences of calls *)

Section SequenceFacts.

Context {Value W : Type} `{Json Value}.

(** In the L2 stage an eviction is counted only after an L2 hit. *)
Lemma get_l2_evicts (key : string) (s : @St W) :
  let st' := stats (fst (snd (get_l2 (Value := Value) key s))) in
  evictions st' - evictions (stats (fst s)) <= l2_hits st' - l2_hits (stats (fst s)).
Proof.
  destruct s as [[rd pg cap ttl st pr] w].
  run_mgr. crush. all: lia.
Qed.

(** In one call an eviction is counted only after an L2 hit or a miss. *)
Lemma get_evicts (metadata_id property_name : string)
    (compute_func : option (@callable Value W)) (m : Manager) (w : W) :
  let st' := stats (fst (snd (get metadata_id property_name compute_func (m, w)))) in
  evictions st' - evictions (stats m) <=
  (l2_hits st' - l2_hits (stats m)) + (misses st' - misses (stats m)).
Proof.
  unfold get. generalize (_generate_cache_key metadata_id property_name); intros key.
  rewrite (bind_ok _ _ _ _ _ (incr_state Total_accesses m w)).
  pose proof (grew_bump Total_accesses (stats m)) as G0.
  set (m0 := set_stats (bump Total_accesses (stats m)) m) in *.
  change (bump Total_accesses (stats m)) with (stats m0) in G0. clearbody m0.
  destruct (get_l1_effects (Value := Value) key (m0, w)) as (hit1 & m1 & E1 & _ & G1).
  simpl in E1, G1. rewrite (bind_ok _ _ _ _ _ E1).
  pose proof (G0 Evictions) as A0. pose proof (G0 L2_hits) as B0. pose proof (G0 Misses) as C0.
  pose proof (G1 Evictions) as A1. pose proof (G1 L2_hits) as B1. pose proof (G1 Misses) as C1.
  simpl in A0, B0, C0, A1, B1, C1.
  destruct hit1 as [v1 |]; [simpl; lia |].
  destruct (get_l2_effects (Value := Value) key (m1, w)) as (hit2 & m2 & E2 & _ & G2).
  pose proof (get_l2_evicts key (m1, w)) as A2.
  simpl in E2, G2, A2. rewrite E2 in A2. simpl in A2.
  rewrite (bind_ok _ _ _ _ _ E2).
  assert (C2 : misses (stats m2) = misses (stats m1)).
  { pose proof (G2 Misses) as C2. destruct hit2; simpl in C2; lia. }
  destruct hit2 as [v2 |]; [simpl; lia |].
  destruct compute_func as [f |]; [| simpl; lia].
  rewrite (bind_ok _ _ _ _ _ (incr_state Misses m2 w)).
  set (m3 := set_stats (bump Misses (stats m2)) m2).
  assert (A3 : evictions (stats m3) = evictions (stats m2)) by reflexivity.
  assert (B3 : l2_hits (stats m3) = l2_hits (stats m2)) by reflexivity.
  assert (C3 : misses (stats m3) = misses (stats m2) + 1) by reflexivity.
  clearbody m3.
  destruct (f w) as [[v | e] w1] eqn:Hf.
  - rewrite (bind_ok _ _ _ _ _ (call_state f m3 w w1 _ Hf)).
    destruct (_set_l1_effects key v (m3, w1)) as (m4 & E4 & _ & G4 & _).
    simpl in E4, G4. rewrite (bind_ok _ _ _ _ _ E4).
    pose proof (G4 Evictions) as A4. pose proof (G4 L2_hits) as B4.
    pose proof (G4 Misses) as C4. simpl in A4, B4, C4.
    destruct (_set_l2_effects key metadata_id property_name v (m4, w1))
      as (r5 & m5 & E5 & G5 & _).
    simpl in E5, G5.
    pose proof (G5 Evictions) as A5. pose proof (G5 L2_hits) as B5.
    pose proof (G5 Misses) as C5. simpl in A5, B5, C5.
    destruct r5 as [[] | e5].
    + rewrite (bind_ok _ _ _ _ _ E5). simpl. lia.
    + rewrite (bind_raise _ _ _ _ _ E5). simpl. lia.
  - rewrite (bind_raise _ _ _ _ _ (call_state f m3 w w1 _ Hf)). simpl. lia.
Qed.

(** [invalidate] changes no counter, in any state. *)
Lemma invalidate_keeps_stats (metadata_id : string) (property_name : option string)
    (s : @St W) :
  stats (fst (snd (invalidate metadata_id property_name s))) = stats (fst s).
Proof.
  unfold invalidate.
  destruct (match property_name with
            | Some p => if nonempty p then Some p else None
            | None => None
            end) as [p |].
  - destruct (_invalidate_key_effects (_generate_cache_key metadata_id p) s)
      as (m1 & E1 & S1 & _).
    rewrite E1. exact S1.
  - destruct s as [[rd [[t c rows pfs psent] |] cap ttl st pr] w]; [| reflexivity].
    unfold mbind, M_bind, gets, try_except, on_postgres, self, zoom, print, modify,
      pg_cursor, pg_execute, pg_fetchall, pg_call.
    simpl.
    destruct (next_fault pfs) as [[] fs1]; simpl; [reflexivity |].
    destruct (next_fault fs1) as [[] fs2]; simpl; [reflexivity |].
    destruct (next_fault fs2) as [[] fs3]; simpl; [reflexivity |].
    match goal with
    | |- context [ for_each ?ks _ ?s0 ] =>
        destruct (for_each_invalidate_effects ks s0) as (m1 & E1 & S1 & _); rewrite E1
    end.
    exact S1.
Qed.

(** Every call keeps the counters consistent, and a [get] is one more
    access. *)
Lemma serve_keeps_consistent (s : @St W) (r : @request Value W) :
  counters_consistent (stats (fst s)) ->
  counters_consistent (stats (fst (serve s r))) /\
  total_accesses (stats (fst (serve s r))) =
    total_accesses (stats (fst s)) + (if is_get r then 1 else 0).
Proof.
  unfold counters_consistent. intros Hs.
  destruct r as [metadata_id property_name compute_func | metadata_id property_name];
    cbn [serve is_get].
  - destruct s as [m w]. cbn [fst] in Hs |- *.
    pose proof (get_evicts metadata_id property_name compute_func m w) as Hev.
    pose proof (get_counts_every_access metadata_id property_name compute_func (m, w)) as Ht.
    destruct (get_stages metadata_id property_name compute_func m w)
      as (r & m' & w' & E & Hg & _).
    cbv zeta in Hev. rewrite E in Hev, Ht |- *. cbn [fst snd] in Hev, Ht |- *.
    pose proof (Hg L1_hits) as G1. pose proof (Hg L2_hits) as G2.
    pose proof (Hg Misses) as G3. pose proof (Hg Evictions) as G4.
    cbn [reading] in G1, G2, G3, G4. lia.
  - rewrite invalidate_keeps_stats. lia.
Qed.

(** X24.  The counters of a manager, always.  On a manager made by the
    constructor, after any sequence of [get] and [invalidate] calls,
    whatever the tiers and the compute functions do and whether the
    calls return or raise, [total_accesses] is the number of [get]
    calls; [l1_hits], [l2_hits] and [misses] are each between zero and
    [total_accesses]; and [evictions] is between zero and
    [l2_hits + misses]. *)
Theorem counters_stay_consistent (redis_client : option Redis)
    (postgres_connection : option Postgres) (l1_capacity : Z) (l1_ttl : option Z)
    (requests : list (@request Value W)) (w : W) :
  let m := fst (foldl serve (__init__ redis_client postgres_connection l1_capacity l1_ttl, w)
                      requests) in
  total_accesses (stats m) = Z.of_nat (List.length (List.filter is_get requests)) /\
  counters_consistent (stats m).
Proof.
  intros m. subst m.
  assert (Hgen : forall (s : @St W),
            counters_consistent (stats (fst s)) ->
            total_accesses (stats (fst (foldl serve s requests))) =
              total_accesses (stats (fst s)) +
              Z.of_nat (List.length (List.filter is_get requests)) /\
            counters_consistent (stats (fst (foldl serve s requests)))).
  { induction requests as [| r requests IH]; intros s Hs.
    - cbn. split; [lia | exact Hs].
    - cbn [foldl List.filter].
      destruct (serve_keeps_consistent s r Hs) as [Hc Ht].
      destruct (IH (serve s r) Hc) as [Ht' Hc']. split; [| exact Hc'].
      rewrite Ht', Ht. destruct (is_get r); cbn [List.length]; lia. }
  apply Hgen. cbn. unfold counters_consistent. cbn. lia.
Qed.

End SequenceFacts.
